(** * student-attention: the capture / detection / upload client, verified

  A shallow embedding of the browser extension's background script
  (meeting detection, capture scheduling, frame capture, device
  identifier, upload), of the popup's meeting detector and of the
  dashboard's query handler, with the properties of the design note
  stated and settled against these definitions. *)

From Stdlib Require Import ZArith String Ascii List Bool Lia DecimalString.
From stdpp Require Import gmap strings list.
From Equations Require Import Equations.
Import ListNotations.

Set Warnings "-register-all".
Local Open Scope Z_scope.
Local Open Scope string_scope.

(* ===================================================================== *)
(** ** JavaScript values and control, as far as the scripts use them *)
(* ===================================================================== *)

Module Js.

(** JSON values: what [response.json()] yields and what a message or a
    request body carries. A number is kept as the text JavaScript prints
    for it ([String(n)]): printing and the test [=== 0] are all the
    scripts do with one. *)
Inductive json :=
| JNull
| JBool (b : bool)
| JNum (printed : string)
| JStr (s : string)
| JArr (items : list json)
| JObj (fields : list (string * json)).

(** Property lookup in an object's own fields. *)
Fixpoint assoc {A} (key : string) (fields : list (string * A)) : option A :=
  match fields with
  | [] => None
  | (k, v) :: rest => if String.eqb k key then Some v else assoc key rest
  end.

(** How a statement completes: normally with a value, or by throwing.
    A promise that settles is read the same way (resolved / rejected). *)
Inductive completion (A : Type) :=
| Normal (a : A)
| Throw (message : string).
Arguments Normal {A} a.
Arguments Throw {A} message.

Definition bind {A B} (c : completion A) (k : A -> completion B) : completion B :=
  match c with
  | Normal a => k a
  | Throw e => Throw e
  end.

(** [v.key]: reading a property of null throws a TypeError; a value
    without the property gives undefined ([None]). *)
Definition get_prop (key : string) (v : json) : completion (option json) :=
  match v with
  | JNull => Throw "TypeError: Cannot read properties of null"
  | JObj fields => Normal (assoc key fields)
  | _ => Normal None
  end.

(** The fields [JSON.stringify] writes for an object literal: a property
    whose value is undefined is left out. *)
Fixpoint defined_fields (fields : list (string * option json))
  : list (string * json) :=
  match fields with
  | [] => []
  | (k, Some v) :: rest => (k, v) :: defined_fields rest
  | (_, None) :: rest => defined_fields rest
  end.

(** Truthiness of a string-or-undefined and of a timer handle or null. *)
Definition truthy_string (v : option string) : bool :=
  match v with
  | Some s => negb (String.eqb s "")
  | None => false
  end.

Definition truthy_handle (v : option Z) : bool :=
  match v with
  | Some n => negb (n =? 0)%Z
  | None => false
  end.

(** [v !== null] *)
Definition not_null {A} (o : option A) : bool :=
  match o with Some _ => true | None => false end.

(** [s.includes(sub)] *)
Fixpoint includes (sub s : string) : bool :=
  String.prefix sub s ||
  match s with
  | EmptyString => false
  | String _ rest => includes sub rest
  end.

(** [s.split('/').pop()]: what follows the last slash (all of [s] when
    it has none). *)
Fixpoint last_segment_from (cur : string) (s : string) : string :=
  match s with
  | EmptyString => cur
  | String c rest =>
      if Ascii.eqb c "/"%char then last_segment_from "" rest
      else last_segment_from (cur ++ String c "") rest
  end.

Definition last_segment (s : string) : string := last_segment_from "" s.

Definition is_space (c : ascii) : bool :=
  let n := nat_of_ascii c in
  ((n =? 32) || (n =? 9) || (n =? 10) || (n =? 11) || (n =? 12) || (n =? 13))%nat.

Fixpoint trim_start (s : string) : string :=
  match s with
  | EmptyString => ""
  | String c rest => if is_space c then trim_start rest else s
  end.

Fixpoint trim_end (s : string) : string :=
  match s with
  | EmptyString => ""
  | String c rest =>
      match trim_end rest with
      | EmptyString => if is_space c then "" else String c ""
      | kept => String c kept
      end
  end.

(** [s.trim()], over ASCII white space. *)
Definition trim (s : string) : string := trim_end (trim_start s).

(** Decimal text of an integer, as a template literal prints a status. *)
Definition string_of_Z (z : Z) : string :=
  DecimalString.NilZero.string_of_int (Z.to_int z).

End Js.

(* ===================================================================== *)
(** ** The page: a DOM tree and the selectors the scripts use *)
(* ===================================================================== *)

Module Dom.

(** What the scripts read off an element besides its attributes: the
    rendered box ([offsetWidth], [offsetHeight]) and, for a media
    element, its stream ([srcObject], [None] for JavaScript's null),
    [readyState] and native resolution. *)
Record props := Props {
  offsetWidth : Z;
  offsetHeight : Z;
  srcObject : option string;
  readyState : Z;
  videoWidth : Z;
  videoHeight : Z
}.

Definition no_props : props := Props 0 0 None 0 0 0.

(** A node is a text node or an element; an element's attributes are a
    map from attribute name to value. *)
Inductive node :=
| Text (data : string)
| Elem (localName : string) (attributes : gmap string string)
       (p : props) (childNodes : list node).

Definition attributes_of (n : node) : gmap string string :=
  match n with Elem _ a _ _ => a | Text _ => ∅ end.

Definition localName_of (n : node) : string :=
  match n with Elem t _ _ _ => t | Text _ => "" end.

Definition props_of (n : node) : props :=
  match n with Elem _ _ p _ => p | Text _ => no_props end.

(** [element.getAttribute(name)] *)
Definition getAttribute (name : string) (n : node) : option string :=
  attributes_of n !! name.

(** The elements of a tree in document order (the order in which
    [querySelectorAll] lists them and [querySelector] searches). *)
Fixpoint elements_of (n : node) : list node :=
  match n with
  | Text _ => []
  | Elem _ _ _ kids =>
      n :: (fix over (l : list node) : list node :=
              match l with
              | [] => []
              | k :: rest => (elements_of k ++ over rest)%list
              end) kids
  end.

(** [node.textContent]: the text of all descendant text nodes, in order. *)
Fixpoint textContent (n : node) : string :=
  match n with
  | Text s => s
  | Elem _ _ _ kids =>
      (fix over (l : list node) : string :=
         match l with
         | [] => ""
         | k :: rest => textContent k ++ over rest
         end) kids
  end.

(** ASCII white space, as it separates class names. *)
Definition is_space (c : ascii) : bool :=
  let n := nat_of_ascii c in
  ((n =? 32) || (n =? 9) || (n =? 10) || (n =? 12) || (n =? 13))%nat.

(** The white-space separated tokens of a [class] attribute. *)
Fixpoint tokens_from (cur : string) (s : string) : list string :=
  match s with
  | EmptyString => if String.eqb cur "" then [] else [cur]
  | String c rest =>
      if is_space c
      then (if String.eqb cur "" then tokens_from "" rest
            else cur :: tokens_from "" rest)
      else tokens_from (cur ++ String c "") rest
  end.

Definition classList (n : node) : list string :=
  match getAttribute "class" n with
  | Some v => tokens_from "" v
  | None => []
  end.

(** The selectors that occur in the scripts. *)
Inductive selector :=
| ByTag (tag : string)                (* video *)
| HasAttr (name : string)             (* [data-is-muted] *)
| AttrEq (name value : string)        (* [data-tooltip-id="tt-m0"] *)
| TagClass (tag cls : string).        (* span.notranslate *)

Definition matches (sel : selector) (n : node) : bool :=
  match n with
  | Text _ => false
  | Elem t attrs _ _ =>
      match sel with
      | ByTag tag => String.eqb t tag
      | HasAttr name =>
          match attrs !! name with Some _ => true | None => false end
      | AttrEq name value =>
          match attrs !! name with
          | Some v => String.eqb v value
          | None => false
          end
      | TagClass tag cls =>
          String.eqb t tag && existsb (String.eqb cls) (classList n)
      end
  end.

Definition document := node.

(** [document.querySelectorAll(sel)] *)
Definition querySelectorAll (sel : selector) (doc : document) : list node :=
  List.filter (matches sel) (elements_of doc).

(** [document.querySelector(sel)]: the first match, or null. *)
Definition querySelector (sel : selector) (doc : document) : option node :=
  List.find (matches sel) (elements_of doc).

End Dom.

(* ===================================================================== *)
(** ** The two meeting detectors *)
(* ===================================================================== *)

(** [checkMeetingStatus] of the background script: nine indicators, and
  [Object.values(indicators).some(indicator => indicator !== null)]. *)
Module Background.
Import Js Dom.

Definition indicators (doc : document) : list (string * option node) :=
  [ ("mutedButton", querySelector (HasAttr "data-is-muted") doc);
    ("allocationIndex", querySelector (HasAttr "data-allocation-index") doc);
    ("participantId", querySelector (HasAttr "data-participant-id") doc);
    ("tooltip", querySelector (AttrEq "data-tooltip-id" "tt-m0") doc);
    ("meetingArea", querySelector (HasAttr "data-meeting-area") doc);
    ("meetingContainer", querySelector (HasAttr "data-meeting-container") doc);
    ("video", querySelector (ByTag "video") doc);
    ("meetingTitle", querySelector (HasAttr "data-meeting-title") doc);
    ("meetingStatus", querySelector (HasAttr "data-meeting-status") doc) ].

Definition checkMeetingStatus (doc : document) : bool :=
  existsb (fun indicator => not_null indicator) (map snd (indicators doc)).

(** *** The capture scheduler

    The script keeps one global, [captureInterval], holding a timer
    handle or null.  The host's timers are part of the state: a timer
    handle is a positive integer drawn from one counter shared by
    [setTimeout] and [setInterval]; a pending timeout and an active
    interval each remember the tab their callback was created for.
    The only [setTimeout] callback of the script is
    [captureInterval = setInterval(tick, 2000)], the only [setInterval]
    callback is the capture tick. Times are in milliseconds. The
    console lines of the scheduler and of the detectors are left out; the
    console is recorded where a property speaks of it, on the upload
    path. *)
Record timer := Timer { timer_id : Z; due : Z; for_tab : Z }.

Record state := State {
  now : Z;
  next_handle : Z;
  pending_timeouts : list timer;
  active_intervals : list timer;
  captureInterval : option Z;
  badge : string;
  capture_ticks : list (Z * Z * Z)     (* time, interval handle, tab *)
}.

Definition init : state := State 0 1 [] [] None "" [].

Definition keep_other (handle : Z) (t : timer) : bool :=
  negb (timer_id t =? handle)%Z.

(** [clearInterval(handle)]: timeouts and intervals share the handles. *)
Definition clearInterval (handle : Z) (s : state) : state :=
  State (now s) (next_handle s)
        (List.filter (keep_other handle) (pending_timeouts s))
        (List.filter (keep_other handle) (active_intervals s))
        (captureInterval s) (badge s) (capture_ticks s).

(** [setTimeout(() => { captureInterval = setInterval(...) }, delay)] *)
Definition setTimeout_startup (tabId delay : Z) (s : state) : state :=
  State (now s) (next_handle s + 1)
        (pending_timeouts s ++ [Timer (next_handle s) (now s + delay) tabId])
        (active_intervals s)
        (captureInterval s) (badge s) (capture_ticks s).

Definition set_captureInterval (v : option Z) (s : state) : state :=
  State (now s) (next_handle s) (pending_timeouts s) (active_intervals s)
        v (badge s) (capture_ticks s).

(** [chrome.action.setBadgeText({ text })] *)
Definition setBadgeText (text : string) (s : state) : state :=
  State (now s) (next_handle s) (pending_timeouts s) (active_intervals s)
        (captureInterval s) text (capture_ticks s).

Definition startCameraCapture (tabId : Z) (s : state) : state :=
  let cleared :=
    match captureInterval s with
    | Some handle =>
        if truthy_handle (Some handle) then clearInterval handle s else s
    | None => s
    end in
  setTimeout_startup tabId 1000 cleared.

Definition stopCameraCapture (s : state) : state :=
  match captureInterval s with
  | Some handle =>
      if truthy_handle (Some handle)
      then set_captureInterval None (clearInterval handle s)
      else s
  | None => s
  end.

(** The startup timeout's callback: [captureInterval = setInterval(tick, 2000)]. *)
Definition fire_timeout (s : state) (t : timer) : state :=
  State (now s) (next_handle s + 1)
        (pending_timeouts s)
        (active_intervals s ++ [Timer (next_handle s) (now s + 2000) (for_tab t)])
        (Some (next_handle s)) (badge s) (capture_ticks s).

Definition is_due (time : Z) (t : timer) : bool := (due t <=? time)%Z.

Definition run_timeouts (s : state) : state :=
  let ready := List.filter (is_due (now s)) (pending_timeouts s) in
  let later := List.filter (fun t => negb (is_due (now s) t)) (pending_timeouts s) in
  fold_left fire_timeout ready
    (State (now s) (next_handle s) later (active_intervals s)
           (captureInterval s) (badge s) (capture_ticks s)).

(** Every interval that is due runs its tick (one capture attempt in its
    tab) and is re-armed a period later. *)
Definition run_intervals (s : state) : state :=
  let fired := List.filter (is_due (now s)) (active_intervals s) in
  State (now s) (next_handle s) (pending_timeouts s)
        (map (fun t => if is_due (now s) t
                       then Timer (timer_id t) (now s + 2000) (for_tab t)
                       else t)
             (active_intervals s))
        (captureInterval s) (badge s)
        (capture_ticks s ++ map (fun t => (now s, timer_id t, for_tab t)) fired).

(** One millisecond passes: the clock moves, then the timers that are
    due run, in the order they were set. *)
Definition advance (s : state) : state :=
  run_intervals
    (run_timeouts
       (State (now s + 1) (next_handle s) (pending_timeouts s)
              (active_intervals s) (captureInterval s) (badge s)
              (capture_ticks s))).

Definition elapse (ms : nat) (s : state) : state := Nat.iter ms advance s.

(** The result of [chrome.scripting.executeScript] with
    [checkMeetingStatus]: [results && results[0] && results[0].result];
    [None] is a tab the script could not be injected into. *)
Definition in_meeting (page : option document) : bool :=
  match page with
  | Some doc => checkMeetingStatus doc
  | None => false
  end.

Definition is_meet_url (url : option string) : bool :=
  match url with
  | Some u => truthy_string (Some u) && includes "meet.google.com" u
  | None => false
  end.

Definition on_meeting_status (tabId : Z) (page : option document) (s : state)
  : state :=
  if in_meeting page
  then startCameraCapture tabId (setBadgeText "ON" s)
  else stopCameraCapture (setBadgeText "" s).

(** [chrome.tabs.onUpdated] *)
Definition onUpdated (tabId : Z) (status : option string) (url : option string)
           (page : option document) (s : state) : state :=
  match status with
  | Some st =>
      if String.eqb st "complete" && is_meet_url url
      then on_meeting_status tabId page s
      else s
  | None => s
  end.

(** [chrome.tabs.onRemoved] *)
Definition onRemoved (tabId : Z) (s : state) : state :=
  stopCameraCapture (setBadgeText "" s).

(** [chrome.tabs.onActivated] *)
Definition onActivated (tabId : Z) (url : option string)
           (page : option document) (s : state) : state :=
  if is_meet_url url then on_meeting_status tabId page s else s.

Inductive event :=
| TabUpdated (tabId : Z) (status : option string) (url : option string)
             (page : option document)
| TabRemoved (tabId : Z)
| TabActivated (tabId : Z) (url : option string) (page : option document)
| Elapse (ms : nat).

Definition handle (s : state) (e : event) : state :=
  match e with
  | TabUpdated tabId status url page => onUpdated tabId status url page s
  | TabRemoved tabId => onRemoved tabId s
  | TabActivated tabId url page => onActivated tabId url page s
  | Elapse ms => elapse ms s
  end.

Definition run (events : list event) (s : state) : state :=
  fold_left handle events s.

(** *** Device identifier, upload and the message listener

    The world the service worker acts on: [chrome.storage.local], the
    random source behind [crypto.randomUUID], the clock as
    [new Date().toISOString()] reads it, the remote endpoint, the
    requests sent so far and the console. *)
Inductive level := LogInfo | LogError.

Record request := Request {
  url : string;
  method : string;
  headers : list (string * string);
  mode : string;
  credentials : string;
  body : json          (* the value whose JSON text is the request body *)
}.

(** What [fetch] settles to: a rejection, or a response with its status
    and, when its body is JSON text, the value [response.json()] gives. *)
Inductive fetch_result :=
| NetworkError (message : string)
| Response (status : Z) (payload : option json).

Record world := World {
  storage : gmap string string;
  entropy : nat -> N;
  drawn : nat;
  date_iso : string;
  extension_url : string;
  server : request -> fetch_result;
  sent : list request;
  console : list (level * string)
}.

Definition BACKEND_URL : string :=
  "https://student-attention.onrender.com/api/images".

Definition console_log (lv : level) (text : string) (w : world) : world :=
  World (storage w) (entropy w) (drawn w) (date_iso w) (extension_url w)
        (server w) (sent w) (console w ++ [(lv, text)]).

Definition storage_set (key value : string) (w : world) : world :=
  World (<[key := value]> (storage w)) (entropy w) (drawn w) (date_iso w)
        (extension_url w) (server w) (sent w) (console w).

Definition record_request (r : request) (w : world) : world :=
  World (storage w) (entropy w) (drawn w) (date_iso w) (extension_url w)
        (server w) (sent w ++ [r]) (console w).

(** [crypto.randomUUID()]: 128 random bits printed as 32 hexadecimal
    digits in groups of 8-4-4-4-12, with the version and variant digits
    fixed. *)
Definition hex_digit (n : N) : ascii :=
  nth (N.to_nat (n mod 16)) (list_ascii_of_string "0123456789abcdef") "0"%char.

Definition uuid_nibble (bits : N) (i : nat) : N :=
  let raw := ((bits / 16 ^ N.of_nat (31 - i)) mod 16)%N in
  if (i =? 12)%nat then 4%N
  else if (i =? 16)%nat then (8 + raw mod 4)%N
  else raw.

Definition uuid_group (bits : N) (first count : nat) : string :=
  string_of_list_ascii
    (map (fun i => hex_digit (uuid_nibble bits i)) (seq first count)).

Definition uuid_text (bits : N) : string :=
  uuid_group bits 0 8 ++ "-" ++ uuid_group bits 8 4 ++ "-" ++
  uuid_group bits 12 4 ++ "-" ++ uuid_group bits 16 4 ++ "-" ++
  uuid_group bits 20 12.

Definition randomUUID (w : world) : string * world :=
  (uuid_text (entropy w (drawn w)),
   World (storage w) (entropy w) (S (drawn w)) (date_iso w) (extension_url w)
         (server w) (sent w) (console w)).

(** [getDeviceId(callback)]: the callback runs in the world the storage
    calls leave behind. *)
Definition getDeviceId {R} (callback : string -> world -> R) (w : world) : R :=
  let generate :=
    let (newId, w1) := randomUUID w in
    callback newId (storage_set "deviceId" newId w1) in
  match storage w !! "deviceId" with
  | Some deviceId =>
      if truthy_string (Some deviceId) then callback deviceId w else generate
  | None => generate
  end.

Definition upload_request (imageData meetingId userId participantId userName
                           deviceId : option json) (w : world) : request :=
  Request BACKEND_URL "POST"
    [ ("Content-Type", "application/json");
      ("Accept", "application/json");
      ("Origin", extension_url w);
      ("Access-Control-Allow-Origin", "*") ]
    "cors" "omit"
    (JObj (defined_fields
             [ ("imageData", imageData);
               ("meetingId", meetingId);
               ("timestamp", Some (JStr (date_iso w)));
               ("userId", userId);
               ("participantId", participantId);
               ("userName", userName);
               ("deviceId", deviceId) ])).

Definition response_ok (status : Z) : bool :=
  (200 <=? status)%Z && (status <=? 299)%Z.

(** The [try] block of [sendImageToBackend], after the request is out. *)
Definition upload_attempt (answer : fetch_result) (w : world)
  : completion json * world :=
  match answer with
  | NetworkError message => (Throw message, w)
  | Response status payload =>
      if negb (response_ok status)
      then (Throw ("HTTP error! status: " ++ string_of_Z status), w)
      else match payload with
           | None => (Throw "SyntaxError: Unexpected token", w)
           | Some result =>
               (Normal result, console_log LogInfo "Image sent successfully:" w)
           end
  end.

(** [sendImageToBackend]: the promise it returns, resolved or rejected. *)
Definition sendImageToBackend (imageData meetingId userId participantId
                               userName deviceId : option json) (w : world)
  : completion json * world :=
  let w0 := console_log LogInfo "Sending image to backend for meeting:" w in
  let req := upload_request imageData meetingId userId participantId
                            userName deviceId w0 in
  let w1 := record_request req w0 in
  match upload_attempt (server w1 req) w1 with
  | (Normal result, w2) => (Normal result, w2)
  | (Throw error, w2) =>
      (Throw error, console_log LogError "Error sending image to backend:" w2)
  end.

(** [message.key] of a message that is not null. *)
Definition message_field (key : string) (message : json) : option json :=
  match get_prop key message with
  | Normal v => v
  | Throw _ => None
  end.

(** The object handed to [sendResponse]. *)
Record reply := Reply { success : bool; error : option string }.

(** [chrome.runtime.onMessage]: [Normal (Some r)] when the listener
    answered with [r], [Normal None] when the message is not a captured
    image (the listener returns without answering). *)
Definition onMessage (message : json) (w : world)
  : completion (option reply) * world :=
  match get_prop "type" message with
  | Throw e => (Throw e, w)
  | Normal (Some (JStr "IMAGE_CAPTURED")) =>
      let w0 := console_log LogInfo
                  "Received image from content script for meeting:" w in
      getDeviceId
        (fun deviceId w1 =>
           match sendImageToBackend
                   (message_field "imageData" message)
                   (message_field "meetingId" message)
                   (message_field "userId" message)
                   (message_field "participantId" message)
                   (message_field "userName" message)
                   (Some (JStr deviceId)) w1 with
           | (Normal result, w2) =>
               (Normal (Some (Reply true None)),
                console_log LogInfo
                  "Image sent successfully from background:" w2)
           | (Throw error, w2) =>
               (Normal (Some (Reply false (Some error))),
                console_log LogError
                  "Failed to send image from background:" w2)
           end)
        w0
  | Normal _ => (Normal None, w)
  end.

(** *** The frame capturer (runs in the page)

    A page as one capture attempt sees it: its document, the path of
    its location, and the canvas ([toDataURL] after [drawImage] of the
    given video at the given size; it may throw). *)
Record page := Page {
  doc : document;
  pathname : string;
  toDataURL : node -> Z -> Z -> completion string
}.

Inductive page_effect :=
| ConsoleLog (text : string)
| ConsoleError (text : string)
| SetTimeout (delay : Z) (retryCount : Z)    (* captureCameraImage(retryCount) later *)
| SendMessage (message : json).

Definition suitable (video : node) : bool :=
  (100 <? offsetWidth (props_of video))%Z
  && (100 <? offsetHeight (props_of video))%Z
  && not_null (srcObject (props_of video))
  && (readyState (props_of video) =? 4)%Z.

(** [videoElements.find(video => ...)] over [querySelectorAll('video')]. *)
Definition mainVideo (d : document) : option node :=
  List.find suitable (querySelectorAll (ByTag "video") d).

(** [a || b] on numbers. *)
Definition or_default (a b : Z) : Z := if (a =? 0)%Z then b else a.

Definition nullable (v : option string) : json :=
  match v with Some s => JStr s | None => JNull end.

Definition image_captured (imageData meetingId : string)
           (userId userName participantId : option string) : json :=
  JObj [ ("type", JStr "IMAGE_CAPTURED");
         ("imageData", JStr imageData);
         ("meetingId", JStr meetingId);
         ("userId", nullable userId);
         ("userName", nullable userName);
         ("participantId", nullable participantId) ].

(** The [try] block of [captureCameraImage], once a video is chosen. *)
Definition capture_frame (pg : page) (video : node) : list page_effect :=
  let width := or_default (videoWidth (props_of video)) 640 in
  let height := or_default (videoHeight (props_of video)) 480 in
  match toDataURL pg video width height with
  | Throw e => [ConsoleError "Error capturing image:"]
  | Normal imageData =>
      let meetingId := last_segment (pathname pg) in
      let userName :=
        match querySelector (TagClass "span" "notranslate") (doc pg) with
        | Some nameElem => Some (trim (textContent nameElem))
        | None => None
        end in
      let userId :=
        match querySelector (HasAttr "data-self-name") (doc pg) with
        | Some userElem => getAttribute "data-self-name" userElem
        | None => None
        end in
      let participantId :=
        match querySelector (HasAttr "data-participant-id") (doc pg) with
        | Some participantElem =>
            getAttribute "data-participant-id" participantElem
        | None => None
        end in
      [SendMessage (image_captured imageData meetingId userId userName
                                   participantId)]
  end.

(** [captureCameraImage(retryCount)] with all the retries it schedules:
    [pages n] is the page as the attempt with counter [n] finds it. The
    recursion is the chain of [setTimeout] callbacks; it is bounded by
    the distance of the counter to 10. *)
Equations? captureCameraImage (pages : Z -> page) (retryCount : Z)
  : list page_effect by wf (Z.to_nat (10 - retryCount)) lt :=
  captureCameraImage pages retryCount with mainVideo (doc (pages retryCount)) => {
    | Some video => capture_frame (pages retryCount) video
    | None with Z_lt_dec retryCount 10 => {
        | left _ =>
            ConsoleLog "No suitable video element found, retrying..."
            :: SetTimeout 1000 (retryCount + 1)
            :: captureCameraImage pages (retryCount + 1)
        | right _ =>
            [ConsoleLog "No suitable video element found after retries."] } }.
Proof. lia. Qed.

End Background.

(** [checkMeetingStatus] of the popup: four selectors joined by [||]. *)
Module Popup.
Import Js Dom.

Definition checkMeetingStatus (doc : document) : bool :=
  not_null (querySelector (HasAttr "data-is-muted") doc)
  || not_null (querySelector (HasAttr "data-allocation-index") doc)
  || not_null (querySelector (HasAttr "data-participant-id") doc)
  || not_null (querySelector (AttrEq "data-tooltip-id" "tt-m0") doc).

(** *** The popup's status display

    A tab as [chrome.tabs.query({})] reports it, together with the page
    a script injected into it sees ([None]: the injection fails). *)
Record tab := Tab {
  tab_id : Z;
  tab_url : option string;
  tab_active : bool;
  tab_page : option document
}.

(** The popup: the class list of the status dot, the text of the status
    label, the markup of the gallery. *)
Record view := View {
  dot_classes : gset string;
  label : string;
  gallery : string
}.

Definition updateStatus (isActive : bool) (message : string) (v : view) : view :=
  View (if isActive
        then ({["active"]} ∪ dot_classes v) ∖ {["inactive"]}
        else ({["inactive"]} ∪ dot_classes v) ∖ {["active"]})
       message (gallery v).

Definition set_gallery (html : string) (v : view) : view :=
  View (dot_classes v) (label v) html.

(** [tab.url && tab.url.includes('meet.google.com') && tab.active] *)
Definition is_active_meet (t : tab) : bool :=
  match tab_url t with
  | Some u => truthy_string (Some u) && includes "meet.google.com" u && tab_active t
  | None => false
  end.

(** [results && results[0] && results[0].result] for the popup's detector. *)
Definition in_meeting (page : option document) : bool :=
  match page with
  | Some d => checkMeetingStatus d
  | None => false
  end.

(** The [DOMContentLoaded] handler, given the tabs the query reports. *)
Definition onDOMContentLoaded (tabs : list tab) (v : view) : view :=
  match List.find is_active_meet tabs with
  | Some meetTab =>
      if in_meeting (tab_page meetTab)
      then set_gallery "<p>Images are being sent to the server</p>"
             (updateStatus true "Active - Sending images to server" v)
      else set_gallery "<p>Join a meeting to start capturing</p>"
             (updateStatus false "Inactive - Not in meeting" v)
  | None =>
      set_gallery "<p>Open Google Meet to start</p>"
        (updateStatus false "Inactive - No Meet tab" v)
  end.

End Popup.

(* ===================================================================== *)
(** ** The dashboard's query handler *)
(* ===================================================================== *)

(** The submit handler of [attention_lookup.html]. The markup it writes is
  kept as text, without the template's white space between tags. *)
Module Dashboard.
Import Js.

(** What [fetch('/api/attention-data')] followed by [response.json()]
    settles to ([FetchResponse None]: the body is not JSON text). *)
Inductive fetch_result :=
| FetchRejected (message : string)
| FetchResponse (payload : option json).

Record view := View {
  results_html : string;        (* resultsDiv.innerHTML *)
  overlay_display : string;     (* loadingOverlay.style.display *)
  default_prevented : bool
}.

Definition set_results (html : string) (v : view) : view :=
  View html (overlay_display v) (default_prevented v).

Definition set_overlay (display : string) (v : view) : view :=
  View (results_html v) display (default_prevented v).

Definition preventDefault (v : view) : view :=
  View (results_html v) (overlay_display v) true.

Definition dq : string := String (ascii_of_nat 34) "".

Definition no_data_html : string :=
  "<div class=" ++ dq ++ "no-data" ++ dq ++ ">" ++
  "<h3>No data found</h3><p>Please try a different meeting ID</p></div>".

Definition error_html : string :=
  "<div class=" ++ dq ++ "no-data" ++ dq ++ ">" ++
  "<h3>Error</h3><p>Failed to fetch data. Please try again.</p></div>".

(** [Array.prototype.join] with a comma, as an array's [toString] calls
    it: null elements print as nothing, the others are converted with
    [print], and the first conversion that throws ends the join. *)
Definition join_with (print : json -> completion string)
  : list json -> completion string :=
  fix join (l : list json) : completion string :=
    match l with
    | [] => Normal ""
    | x :: rest =>
        bind (match x with JNull => Normal "" | _ => print x end) (fun first =>
        match rest with
        | [] => Normal first
        | _ => bind (join rest) (fun others => Normal (first ++ "," ++ others))
        end)
    end.

(** [String(v)] of a parsed JSON value, as a template literal converts
    it. An object is converted through its [toString] property: it
    inherits a working one, which prints "[object Object]", unless a field
    named toString hides it; such a field holds JSON data, never a
    function, and then the conversion throws a TypeError (the inherited
    [valueOf] returns the object itself and is of no help). An array is
    converted by joining its elements. *)
Fixpoint to_string (v : json) : completion string :=
  match v with
  | JNull => Normal "null"
  | JBool true => Normal "true"
  | JBool false => Normal "false"
  | JNum printed => Normal printed
  | JStr s => Normal s
  | JArr items => join_with to_string items
  | JObj fields =>
      match assoc "toString" fields with
      | Some _ => Throw "TypeError: Cannot convert object to primitive value"
      | None => Normal "[object Object]"
      end
  end.

(** A substitution of a template literal: undefined prints as
    "undefined". *)
Definition interpolate (v : option json) : completion string :=
  match v with
  | Some j => to_string j
  | None => Normal "undefined"
  end.

(** One [<tr>] of the table, for one item of the answer: each property is
    read and converted in turn. *)
Definition row_html (item : json) : completion string :=
  bind (get_prop "email" item) (fun email =>
  bind (interpolate email) (fun emailText =>
  bind (get_prop "attentionScore" item) (fun attentionScore =>
  bind (interpolate attentionScore) (fun scoreText =>
  bind (get_prop "duration" item) (fun duration =>
  bind (interpolate duration) (fun durationText =>
  Normal ("<tr><td>" ++ emailText ++ "</td><td>" ++
          scoreText ++ "%</td><td>" ++
          durationText ++ "</td></tr>"))))))).

(** [items.map(item => ...).join('')] *)
Fixpoint rows_html (items : list json) : completion string :=
  match items with
  | [] => Normal ""
  | item :: rest =>
      bind (row_html item) (fun r =>
      bind (rows_html rest) (fun rs => Normal (r ++ rs)))
  end.

Definition table_open : string :=
  "<table class=" ++ dq ++ "results-table" ++ dq ++ ">" ++
  "<thead><tr><th>User Email</th><th>Attention Score</th><th>Duration</th>" ++
  "</tr></thead><tbody>".

Definition table_close : string := "</tbody></table>".

(** [data.map(...)]: only an array has [map]. *)
Definition table_html (data : json) : completion string :=
  match data with
  | JArr items =>
      bind (rows_html items) (fun rs => Normal (table_open ++ rs ++ table_close))
  | JNull => Throw "TypeError: Cannot read properties of null"
  | _ => Throw "TypeError: data.map is not a function"
  end.

(** [data.length === 0] *)
Definition length_is_zero (data : json) : completion bool :=
  match data with
  | JNull => Throw "TypeError: Cannot read properties of null"
  | JArr items => Normal (match items with [] => true | _ => false end)
  | JStr s => Normal (String.eqb s "")
  | JObj fields =>
      Normal (match assoc "length" fields with
              | Some (JNum printed) => String.eqb printed "0"
              | _ => false
              end)
  | _ => Normal false
  end.

(** The [try] block. *)
Definition try_block (answer : fetch_result) (v : view) : completion unit * view :=
  match answer with
  | FetchRejected message => (Throw message, v)
  | FetchResponse None => (Throw "SyntaxError: Unexpected token", v)
  | FetchResponse (Some data) =>
      match length_is_zero data with
      | Throw e => (Throw e, v)
      | Normal true => (Normal tt, set_results no_data_html v)
      | Normal false =>
          match table_html data with
          | Throw e => (Throw e, v)
          | Normal table => (Normal tt, set_results table v)
          end
      end
  end.

(** The whole handler: [try { ... } catch (error) { ... } finally { ... }]. *)
Definition on_submit (answer : fetch_result) (v : view) : completion unit * view :=
  let v1 := set_overlay "flex" (preventDefault v) in
  let (attempt, v2) := try_block answer v1 in
  let (caught, v3) :=
    match attempt with
    | Normal _ => (Normal tt, v2)
    | Throw _ => (Normal tt, set_results error_html v2)
    end in
  (caught, set_overlay "none" v3).

End Dashboard.

(* ===================================================================== *)
(** * The vocabulary of the properties, and sample inputs *)
(* ===================================================================== *)

Import Js Dom Background.

(** ** Meeting detection *)

(** The markers, in the words of the design note: an element of the
    document carrying an attribute, carrying it with a given value, or
    being a video element. *)
Definition present (P : node -> Prop) (d : document) : Prop :=
  exists e, In e (elements_of d) /\ P e.

Definition has_attribute (name : string) (e : node) : Prop :=
  is_Some (getAttribute name e).

Definition attribute_is (name value : string) (e : node) : Prop :=
  getAttribute name e = Some value.

Definition is_video (e : node) : Prop := localName_of e = "video".

(** The four attribute and tooltip markers. *)
Definition attribute_marker (e : node) : Prop :=
  has_attribute "data-is-muted" e \/
  has_attribute "data-allocation-index" e \/
  has_attribute "data-participant-id" e \/
  attribute_is "data-tooltip-id" "tt-m0" e.

(** The five markers the design note names. *)
Definition named_marker (e : node) : Prop :=
  attribute_marker e \/ is_video e.

(** The four further attributes the background script also looks for. *)
Definition further_marker (e : node) : Prop :=
  has_attribute "data-meeting-area" e \/
  has_attribute "data-meeting-container" e \/
  has_attribute "data-meeting-title" e \/
  has_attribute "data-meeting-status" e.

Definition area_only_doc : document :=
  Elem "html" ∅ no_props
    [ Elem "body" ∅ no_props
        [ Elem "div" {[ "data-meeting-area" := "main" ]} no_props [] ] ].

Definition video_only_doc : document :=
  Elem "html" ∅ no_props
    [ Elem "body" ∅ no_props
        [ Elem "video" ∅ (Props 640 360 (Some "stream-1") 4 1280 720) [] ] ].

(** ** Capture scheduling *)

(** Every handle the script holds was handed out by the host, whose
    handles start at 1. *)
Definition handles_positive (s : state) : Prop :=
  (1 <= next_handle s)%Z /\
  forall h, captureInterval s = Some h -> (1 <= h)%Z.

Definition interval_active (h : Z) (s : state) : Prop :=
  In h (map timer_id (active_intervals s)).

(** A page of a call in progress, and the address of its tab. *)
Definition muted_doc : document :=
  Elem "html" ∅ no_props
    [ Elem "body" ∅ no_props
        [ Elem "button" {[ "data-is-muted" := "false" ]} no_props [] ] ].

Definition meet_url : option string :=
  Some "https://meet.google.com/abc-defg-hij".

(** The tab finishes loading, the user switches to it within the startup
    delay, and the delay passes. *)
Definition double_start : list event :=
  [ TabUpdated 7 (Some "complete") meet_url (Some muted_doc);
    Elapse 200;
    TabActivated 7 meet_url (Some muted_doc);
    Elapse 1000 ].

(** ** Frame capture *)

(** What a run of the capturer did: the retries it scheduled (delay and
    next counter), the messages it sent, the errors it logged. *)
Fixpoint timeouts_of (effects : list page_effect) : list (Z * Z) :=
  match effects with
  | [] => []
  | SetTimeout delay retryCount :: rest => (delay, retryCount) :: timeouts_of rest
  | _ :: rest => timeouts_of rest
  end.

Fixpoint messages_of (effects : list page_effect) : list json :=
  match effects with
  | [] => []
  | SendMessage m :: rest => m :: messages_of rest
  | _ :: rest => messages_of rest
  end.

Fixpoint errors_of (effects : list page_effect) : list string :=
  match effects with
  | [] => []
  | ConsoleError text :: rest => text :: errors_of rest
  | _ :: rest => errors_of rest
  end.

Definition gave_up : page_effect :=
  ConsoleLog "No suitable video element found after retries.".

(** A canvas that always encodes. *)
Definition jpeg_canvas (video : node) (width height : Z) : completion string :=
  Normal "data:image/jpeg;base64,/9j/4AAQ".

(** A 100 by 100 thumbnail that is otherwise ready, alone on its page. *)
Definition thumbnail_video : node :=
  Elem "video" ∅ (Props 100 100 (Some "stream-1") 4 320 240) [].

Definition thumbnail_doc : document :=
  Elem "html" ∅ no_props [ Elem "body" ∅ no_props [ thumbnail_video ] ].

Definition thumbnail_pages (n : Z) : page :=
  Page thumbnail_doc "/abc-defg-hij" jpeg_canvas.

(** A call in progress: a live video large enough, the user's name, and
    the attributes the capturer reads. *)
Definition call_video : node :=
  Elem "video" ∅ (Props 640 360 (Some "stream-1") 4 1280 720) [].

Definition call_doc : document :=
  Elem "html" ∅ no_props
    [ Elem "body" {[ "data-self-name" := "u-17" ]} no_props
        [ Elem "div" {[ "data-participant-id" := "spaces/x/devices/42" ]}
               no_props [ call_video ];
          Elem "span" {[ "class" := "zWGUib notranslate" ]} no_props
               [ Text " Ada Lovelace " ] ] ].

Definition call_pages (n : Z) : page :=
  Page call_doc "/abc-defg-hij" jpeg_canvas.

(** ** Device identifier *)

(** A call of [getDeviceId] whose callback hands back what it was given. *)
Definition read_device_id (w : world) : string * world :=
  getDeviceId (fun deviceId w' => (deviceId, w')) w.

(** [n] calls in a row, nothing else touching the storage in between. *)
Fixpoint read_device_ids (n : nat) (w : world) : list string :=
  match n with
  | O => []
  | S m => let r := read_device_id w in fst r :: read_device_ids m (snd r)
  end.

(** A fresh installation: empty storage, a fixed random source, a server
    that accepts everything. *)
Definition fresh_world : world :=
  World ∅ (fun n => (81985529216486895 + N.of_nat n)%N) 0
        "2024-05-01T10:00:00.000Z" "chrome-extension://abcdefgh/"
        (fun _ => Response 200 (Some (JObj [("success", JBool true)])))
        [] [].

(** ** Upload *)

(** A message the listener takes for a captured image. *)
Definition captured (message : json) : Prop :=
  get_prop "type" message = Normal (Some (JStr "IMAGE_CAPTURED")).

(** The message carries the five fields the capturer puts in. *)
Definition complete (message : json) : Prop :=
  Forall (fun key => is_Some (message_field key message))
         ["imageData"; "meetingId"; "userId"; "participantId"; "userName"].

(** The request the listener sends for a message: the message's fields,
    the stored (or newly made) device identifier, the clock's reading. *)
Definition upload_for (message : json) (w : world) : request :=
  upload_request (message_field "imageData" message)
                 (message_field "meetingId" message)
                 (message_field "userId" message)
                 (message_field "participantId" message)
                 (message_field "userName" message)
                 (Some (JStr (fst (read_device_id w)))) w.

Definition body_fields (r : request) : list (string * json) :=
  match body r with JObj fields => fields | _ => [] end.

Definition logged (lv : level) (text : string) (w : world) : Prop :=
  In (lv, text) (console w).

(** The endpoint is down: it answers every request with status 500. *)
Definition failing_world : world :=
  World ∅ (fun n => (81985529216486895 + N.of_nat n)%N) 0
        "2024-05-01T10:00:00.000Z" "chrome-extension://abcdefgh/"
        (fun _ => Response 500 (Some (JObj [("error", JStr "boom")])))
        [] [].

(** The message the capturer sends from the sample call. *)
Definition call_message : json :=
  image_captured "data:image/jpeg;base64,/9j/4AAQ" "abc-defg-hij"
                 (Some "u-17") (Some "Ada Lovelace") (Some "spaces/x/devices/42").

(** ** Dashboard *)

(** The page before a query. *)
Definition blank_view : Dashboard.view := Dashboard.View "" "none" false.


(** Induction over JSON values, through the elements of arrays. *)
Section JsonInduction.
Variable P : json -> Prop.
Hypothesis Hnull : P JNull.
Hypothesis Hbool : forall b, P (JBool b).
Hypothesis Hnum : forall printed, P (JNum printed).
Hypothesis Hstr : forall s, P (JStr s).
Hypothesis Harr : forall items, Forall P items -> P (JArr items).
Hypothesis Hobj : forall fields, P (JObj fields).

End JsonInduction.









(** What the results area shows after the handler has run. *)
Definition shown (answer : Dashboard.fetch_result) (v : Dashboard.view) : string :=
  Dashboard.results_html (snd (Dashboard.on_submit answer v)).

Definition two_rows : list json :=
  [ JObj [("email", JStr "ada@example.org"); ("attentionScore", JNum "87.5");
          ("duration", JStr "42 min")];
    JObj [("email", JStr "bob@example.org"); ("attentionScore", JNum "61");
          ("duration", JStr "17 min")] ].

(** Messages handled one after the other: each handler has finished,
    its upload settled, before the next message arrives, and nothing else
    writes to the storage. *)
Definition handle_all (messages : list json) (w : world) : world :=
  fold_left (fun w' message => snd (onMessage message w')) messages w.

(** The requests sent since [w]. *)
Definition sent_since (w w' : world) : list request :=
  drop (length (sent w)) (sent w').

(** A later frame of the sample call. *)
Definition later_message : json :=
  image_captured "data:image/jpeg;base64,/9j/4BBR" "abc-defg-hij"
                 (Some "u-17") None None.

(** An answer whose only row has an email that cannot be printed. *)
Definition unprintable_row : list json :=
  [ JObj [("email", JObj [("toString", JNum "1")]);
          ("attentionScore", JNum "50"); ("duration", JStr "5 min")] ].

(** ** Capture scheduling: timing *)

(** Nothing is waiting to start, and the only interval that may be
    running is the one whose handle the script holds. *)
Definition settled (s : state) : Prop :=
  pending_timeouts s = [] /\
  forall i, In i (active_intervals s) ->
            captureInterval s = Some (timer_id i) /\ timer_id i <> 0%Z.

(** [k] capture ticks of one interval, a period apart. *)
Fixpoint ticks_from (start : Z) (k : nat) (handle tabId : Z) : list (Z * Z * Z) :=
  match k with
  | O => []
  | S k' => (start, handle, tabId) :: ticks_from (start + 2000) k' handle tabId
  end.

(** The handle the script holds is an interval's, never a pending
    timeout's, and every handle in use was handed out already. *)
Definition held_is_interval (s : state) : Prop :=
  (forall t, In t (pending_timeouts s) -> (timer_id t < next_handle s)%Z) /\
  (forall h, captureInterval s = Some h ->
             (h < next_handle s)%Z /\
             ~ In h (map timer_id (pending_timeouts s))).

(** ** The popup *)

(** [t] is the first element of [l] that passes [f]. *)
Definition first_passing {A} (f : A -> bool) (l : list A) (t : A) : Prop :=
  exists before after,
    l = (before ++ t :: after)%list /\ f t = true /\
    Forall (fun x => f x = false) before.

Definition popup_label (tabs : list Popup.tab) (v : Popup.view) : string :=
  Popup.label (Popup.onDOMContentLoaded tabs v).

Definition popup_dot (tabs : list Popup.tab) (v : Popup.view) : gset string :=
  Popup.dot_classes (Popup.onDOMContentLoaded tabs v).

(** ** The listener and the uploader *)

(** A message of another kind. *)
Definition ping_message : json := JObj [("type", JStr "PING"); ("imageData", JStr "x")].

(** The endpoint cannot be reached. *)
Definition offline_world : world :=
  World ∅ (fun n => (81985529216486895 + N.of_nat n)%N) 0
        "2024-05-01T10:00:00.000Z" "chrome-extension://abcdefgh/"
        (fun _ => NetworkError "Failed to fetch") [] [].

(** ** The frame capturer: a page that becomes ready *)

(** No video yet. *)
Definition loading_doc : document :=
  Elem "html" ∅ no_props [ Elem "body" ∅ no_props [] ].

(** The call's page is still loading at the first three attempts. *)
Definition slow_pages (n : Z) : page :=
  if (n <? 3)%Z then Page loading_doc "/abc-defg-hij" jpeg_canvas
  else Page call_doc "/abc-defg-hij" jpeg_canvas.

(** The retries of a run that waits from counter [first] to [n]. *)
Fixpoint retry_prefix (first : Z) (count : nat) : list page_effect :=
  match count with
  | O => []
  | S c =>
      ConsoleLog "No suitable video element found, retrying..."
      :: SetTimeout 1000 (first + 1)
      :: retry_prefix (first + 1) c
  end.

(** ** The meeting identifier *)

Fixpoint has_slash (s : string) : bool :=
  match s with
  | EmptyString => false
  | String c rest => Ascii.eqb c "/"%char || has_slash rest
  end.

(** ** Capture across tabs *)

(** A Meet page outside a call: no marker at all. *)
Definition lobby_doc : document :=
  Elem "html" ∅ no_props
    [ Elem "body" ∅ no_props [ Elem "div" {[ "class" := "lobby" ]} no_props [] ] ].

(** Capture has been running on tab 7 for five seconds. *)
Definition capturing_on_7 : list event :=
  [ TabUpdated 7 (Some "complete") meet_url (Some muted_doc); Elapse 5000 ].


(* ===================================================================== *)
(** * Properties *)
(* ===================================================================== *)

(** ** The definitions run *)

Example includes_meet :
  is_meet_url meet_url = true /\
  is_meet_url (Some "https://example.org/") = false /\
  is_meet_url (Some "") = false /\ is_meet_url None = false.
Proof. repeat split. Qed.

Example last_segment_of_path :
  last_segment "/abc-defg-hij" = "abc-defg-hij" /\
  last_segment "/lookup/abc/" = "" /\ last_segment "" = "".
Proof. repeat split. Qed.

Example trim_name : trim "  Ada Lovelace " = "Ada Lovelace".
Proof. reflexivity. Qed.

Example class_tokens :
  classList (Elem "span" {[ "class" := "zWGUib  notranslate" ]} no_props [])
  = ["zWGUib"; "notranslate"].
Proof. reflexivity. Qed.

Example capture_from_call :
  captureCameraImage call_pages 0 = [SendMessage call_message].
Proof. reflexivity. Qed.

Example capture_gives_up_late :
  captureCameraImage thumbnail_pages 9 =
  [ ConsoleLog "No suitable video element found, retrying...";
    SetTimeout 1000 10; gave_up ].
Proof. reflexivity. Qed.

Example single_start_one_timer :
  let s := run [TabUpdated 7 (Some "complete") meet_url (Some muted_doc);
                Elapse 5000] init in
  active_intervals s = [Timer 2 7000 7] /\
  captureInterval s = Some 2%Z /\
  capture_ticks s = [(3000, 2, 7); (5000, 2, 7)]%Z.
Proof. vm_compute. repeat split. Qed.

Example spaced_restart_one_timer :
  let s := run [TabUpdated 7 (Some "complete") meet_url (Some muted_doc);
                Elapse 1500;
                TabActivated 7 meet_url (Some muted_doc);
                Elapse 1000] init in
  map timer_id (active_intervals s) = [4%Z] /\ captureInterval s = Some 4%Z.
Proof. vm_compute. repeat split. Qed.

Example dashboard_table :
  shown (Dashboard.FetchResponse (Some (JArr two_rows))) blank_view =
  Dashboard.table_open ++
  "<tr><td>ada@example.org</td><td>87.5%</td><td>42 min</td></tr>" ++
  "<tr><td>bob@example.org</td><td>61%</td><td>17 min</td></tr>" ++
  Dashboard.table_close.
Proof. reflexivity. Qed.

(** ** Meeting detection *)

Lemma matches_HasAttr name e :
  matches (HasAttr name) e = true <-> has_attribute name e.
Proof.
  unfold has_attribute, getAttribute.
  destruct e as [data | t attrs p kids]; simpl.
  - rewrite lookup_empty. split; [discriminate | intros [x Hx]; discriminate].
  - destruct (attrs !! name) as [v|]; split; try done.
Qed.

Lemma matches_AttrEq name value e :
  matches (AttrEq name value) e = true <-> attribute_is name value e.
Proof.
  unfold attribute_is, getAttribute.
  destruct e as [data | t attrs p kids]; simpl.
  - rewrite lookup_empty. split; discriminate.
  - destruct (attrs !! name) as [v|]; [| split; discriminate].
    rewrite String.eqb_eq. split; [intros -> | intros [= ->]]; reflexivity.
Qed.

Lemma matches_video e : matches (ByTag "video") e = true <-> is_video e.
Proof.
  unfold is_video. destruct e as [data | t attrs p kids]; simpl.
  - split; discriminate.
  - apply String.eqb_eq.
Qed.

Lemma querySelector_not_null sel d :
  not_null (querySelector sel d) = true <->
  exists e, In e (elements_of d) /\ matches sel e = true.
Proof.
  unfold querySelector. split.
  - destruct (List.find (matches sel) (elements_of d)) as [e|] eqn:Hfind;
      [| discriminate].
    intros _. exists e. by apply List.find_some in Hfind.
  - intros [e [Hin Hm]].
    destruct (List.find (matches sel) (elements_of d)) as [e'|] eqn:Hfind;
      [reflexivity |].
    pose proof (List.find_none _ _ Hfind e Hin) as Hno. congruence.
Qed.

Lemma found_attr name d :
  not_null (querySelector (HasAttr name) d) = true <->
  present (has_attribute name) d.
Proof.
  rewrite querySelector_not_null. unfold present.
  split; intros [e [Hin H]]; exists e; split; auto; by apply matches_HasAttr.
Qed.

Lemma found_attr_value name value d :
  not_null (querySelector (AttrEq name value) d) = true <->
  present (attribute_is name value) d.
Proof.
  rewrite querySelector_not_null. unfold present.
  split; intros [e [Hin H]]; exists e; split; auto; by apply matches_AttrEq.
Qed.

Lemma found_video d :
  not_null (querySelector (ByTag "video") d) = true <-> present is_video d.
Proof.
  rewrite querySelector_not_null. unfold present.
  split; intros [e [Hin H]]; exists e; split; auto; by apply matches_video.
Qed.

Lemma present_or P Q d :
  present (fun e => P e \/ Q e) d <-> present P d \/ present Q d.
Proof. unfold present. firstorder. Qed.

Lemma popup_detects d :
  Popup.checkMeetingStatus d = true <-> present attribute_marker d.
Proof.
  unfold Popup.checkMeetingStatus, attribute_marker.
  rewrite !orb_true_iff, !found_attr, found_attr_value, !present_or.
  tauto.
Qed.

Lemma background_detects d :
  Background.checkMeetingStatus d = true <->
  present (fun e => named_marker e \/ further_marker e) d.
Proof.
  unfold Background.checkMeetingStatus, Background.indicators.
  unfold named_marker, further_marker, attribute_marker. simpl.
  rewrite !orb_true_iff, !found_attr, found_attr_value, found_video,
    !present_or.
  intuition discriminate.
Qed.


Lemma present_named d :
  present named_marker d <->
  Popup.checkMeetingStatus d = true \/
  not_null (querySelector (ByTag "video") d) = true.
Proof.
  unfold named_marker. by rewrite present_or, popup_detects, found_video.
Qed.

(** C2, as stated, fails: a document whose only marker is a
    [data-meeting-area] attribute carries none of the five named markers,
    yet the background detector answers true; and a document whose only
    marker is a video element carries a named marker, yet the popup's
    detector answers false. *)
Lemma checkMeetingStatus_named_markers_fail :
  (~ present named_marker area_only_doc /\
   Background.checkMeetingStatus area_only_doc = true) /\
  (present named_marker video_only_doc /\
   Popup.checkMeetingStatus video_only_doc = false).
Proof.
  split; split.
  - rewrite present_named. vm_compute. intros [H | H]; discriminate H.
  - vm_compute. reflexivity.
  - rewrite present_named. right. vm_compute. reflexivity.
  - vm_compute. reflexivity.
Qed.

(** C2, amended: the background detector answers true exactly when the
    document holds one of nine markers, the five named ones (any video
    element counts) or one of the attributes data-meeting-area,
    data-meeting-container, data-meeting-title, data-meeting-status; so a
    document with a named marker is detected and one without any of the
    nine is not. The popup's detector answers true exactly when one of the
    four attribute and tooltip markers is present. *)
Theorem checkMeetingStatus_markers (d : document) :
  (Background.checkMeetingStatus d = true <->
   present (fun e => named_marker e \/ further_marker e) d) /\
  (present named_marker d -> Background.checkMeetingStatus d = true) /\
  (~ present named_marker d -> ~ present further_marker d ->
   Background.checkMeetingStatus d = false) /\
  (Popup.checkMeetingStatus d = true <-> present attribute_marker d).
Proof.
  pose proof (background_detects d) as Hbg.
  rewrite present_or in Hbg.
  split; [| split; [| split]].
  - rewrite present_or. exact Hbg.
  - intros H. apply Hbg. by left.
  - intros Hn Hf. apply not_true_is_false. intros H.
    apply Hbg in H as [H | H]; [by apply Hn | by apply Hf].
  - apply popup_detects.
Qed.

Lemma checkMeetingStatus_markers_witness :
  Background.checkMeetingStatus video_only_doc = true.
Proof.
  apply (checkMeetingStatus_markers video_only_doc).
  apply present_named. right. vm_compute. reflexivity.
Defined.

(** C9: on every document with a video element and none of the four
    attribute and tooltip markers the background detector answers true
    and the popup's answers false; such a document exists, so the two
    detectors are not extensionally equal. *)
Theorem detectors_disagree :
  (forall d, present is_video d -> ~ present attribute_marker d ->
             Background.checkMeetingStatus d = true /\
             Popup.checkMeetingStatus d = false) /\
  (present is_video video_only_doc /\ ~ present attribute_marker video_only_doc) /\
  (exists d, Background.checkMeetingStatus d = true /\
             Popup.checkMeetingStatus d = false) /\
  ~ (forall d, Background.checkMeetingStatus d = Popup.checkMeetingStatus d).
Proof.
  assert (Hall : forall d, present is_video d -> ~ present attribute_marker d ->
             Background.checkMeetingStatus d = true /\
             Popup.checkMeetingStatus d = false).
  { intros d Hv Hn. split.
    - apply background_detects, present_or. left.
      unfold named_marker. apply present_or. by right.
    - apply not_true_is_false. intros H. by apply Hn, popup_detects. }
  assert (Hdoc : present is_video video_only_doc /\
                 ~ present attribute_marker video_only_doc).
  { split.
    - apply found_video. vm_compute. reflexivity.
    - rewrite <- popup_detects. vm_compute. discriminate. }
  split; [exact Hall |]. split; [exact Hdoc |]. split.
  - exists video_only_doc. apply Hall; apply Hdoc.
  - intros Heq. destruct (Hall video_only_doc) as [Hb Hp]; try apply Hdoc.
    rewrite Heq, Hp in Hb. discriminate.
Qed.

Lemma detectors_disagree_witness :
  Background.checkMeetingStatus video_only_doc = true /\
  Popup.checkMeetingStatus video_only_doc = false.
Proof.
  destruct detectors_disagree as [Hall [[Hv Hn] _]].
  exact (Hall video_only_doc Hv Hn).
Defined.

(** ** Capture scheduling *)

Lemma cleared_handle_gone h l :
  ~ In h (map timer_id (List.filter (keep_other h) l)).
Proof.
  induction l as [| t l IH]; simpl; [tauto |].
  unfold keep_other at 1.
  destruct (Z.eqb_spec (timer_id t) h) as [Heq | Hne]; simpl; [exact IH |].
  intros [Hh | Hin]; [congruence | by apply IH].
Qed.

(** Starting capture does clear the interval whose handle the script
    holds at that moment. *)
Lemma startCameraCapture_clears_held tabId s h :
  captureInterval s = Some h -> h <> 0%Z ->
  ~ interval_active h (startCameraCapture tabId s).
Proof.
  intros Hh Hnz. unfold startCameraCapture, interval_active. rewrite Hh.
  simpl. destruct (Z.eqb_spec h 0) as [? | _]; [contradiction |].
  simpl. apply cleared_handle_gone.
Qed.

Lemma stopCameraCapture_positive s :
  handles_positive s -> handles_positive (stopCameraCapture s).
Proof.
  intros Hs. pose proof Hs as [Hn Hh]. unfold stopCameraCapture.
  destruct (captureInterval s) as [h |] eqn:Hc; [| exact Hs].
  destruct (truthy_handle (Some h)); [| exact Hs].
  split; [exact Hn | discriminate].
Qed.

Lemma startCameraCapture_positive tabId s :
  handles_positive s -> handles_positive (startCameraCapture tabId s).
Proof.
  intros [Hn Hh]. unfold startCameraCapture.
  destruct (captureInterval s) as [h |] eqn:Hc.
  - destruct (truthy_handle (Some h)); split; simpl; try lia;
      intros h' Hh'; apply Hh; congruence.
  - split; simpl; [lia | rewrite Hc; discriminate].
Qed.

Lemma fire_timeouts_positive ready s :
  handles_positive s -> handles_positive (fold_left fire_timeout ready s).
Proof.
  revert s. induction ready as [| t ready IH]; intros s Hs; simpl; [exact Hs |].
  apply IH. destruct Hs as [Hn Hh]. split; simpl; [lia |].
  intros h [= <-]. exact Hn.
Qed.

Lemma advance_positive s : handles_positive s -> handles_positive (advance s).
Proof.
  intros [Hn Hh]. unfold advance, run_intervals, run_timeouts. simpl.
  match goal with
  | |- handles_positive (State _ (next_handle ?f) _ _ (captureInterval ?f) _ _) =>
      assert (Hf : handles_positive f)
  end.
  { apply fire_timeouts_positive. by split. }
  destruct Hf as [Hn' Hh']. by split.
Qed.

Lemma elapse_positive ms s : handles_positive s -> handles_positive (elapse ms s).
Proof.
  intros Hs. unfold elapse. induction ms as [| ms IH]; simpl; [exact Hs |].
  by apply advance_positive.
Qed.

Lemma handle_positive s e : handles_positive s -> handles_positive (handle s e).
Proof.
  intros Hs.
  assert (Hbadge : forall text, handles_positive (setBadgeText text s))
    by (intros text; exact Hs).
  assert (Hstatus : forall tabId page,
             handles_positive (on_meeting_status tabId page s)).
  { intros tabId page. unfold on_meeting_status.
    destruct (in_meeting page);
      [by apply startCameraCapture_positive | by apply stopCameraCapture_positive]. }
  destruct e as [tabId status url page | tabId | tabId url page | ms]; simpl.
  - unfold onUpdated. destruct status as [st |]; [| exact Hs].
    destruct (String.eqb st "complete" && is_meet_url url); [apply Hstatus | exact Hs].
  - unfold onRemoved. by apply stopCameraCapture_positive.
  - unfold onActivated. destruct (is_meet_url url); [apply Hstatus | exact Hs].
  - by apply elapse_positive.
Qed.

Lemma run_positive events s :
  handles_positive s -> handles_positive (run events s).
Proof.
  revert s. unfold run.
  induction events as [| e events IH]; intros s Hs; simpl; [exact Hs |].
  by apply IH, handle_positive.
Qed.

Lemma init_positive : handles_positive init.
Proof. split; simpl; [lia | discriminate]. Qed.

Lemma stopCameraCapture_idempotent s :
  stopCameraCapture (stopCameraCapture s) = stopCameraCapture s.
Proof.
  unfold stopCameraCapture.
  destruct (captureInterval s) as [h |] eqn:Hc.
  - destruct (truthy_handle (Some h)) eqn:Ht;
      [reflexivity | by rewrite Hc, Ht].
  - by rewrite Hc.
Qed.

(** C10: whatever has happened before, removing a tab, whichever it is,
    leaves the script's capture handle null, the interval it held is no
    longer active and the badge is blank; the result does not depend on
    the tab removed; and stopping capture twice is the same as stopping
    it once. *)
Theorem tab_removal_stops_capture (events : list event) (tabId : Z) :
  let s := run events init in
  let s' := onRemoved tabId s in
  captureInterval s' = None /\
  (forall h, captureInterval s = Some h -> ~ interval_active h s') /\
  badge s' = "" /\
  (forall other, onRemoved other s = s') /\
  stopCameraCapture s' = s' /\
  (forall s0, stopCameraCapture (stopCameraCapture s0) = stopCameraCapture s0).
Proof.
  intros s s'.
  assert (Hpos : handles_positive s) by apply run_positive, init_positive.
  destruct Hpos as [_ Hh].
  assert (Hstop : forall other, onRemoved other s = s') by reflexivity.
  subst s'. unfold onRemoved in *.
  split; [| split; [| split; [| split; [exact Hstop | split]]]].
  - unfold stopCameraCapture. simpl.
    destruct (captureInterval s) as [h |] eqn:Hc; [| exact Hc].
    specialize (Hh h eq_refl).
    destruct (Z.eqb_spec h 0) as [-> | Hnz]; [lia | reflexivity].
  - intros h Hc. specialize (Hh h Hc).
    unfold stopCameraCapture. simpl. rewrite Hc.
    destruct (Z.eqb_spec h 0) as [-> | Hnz]; [lia |]. simpl.
    apply cleared_handle_gone.
  - unfold stopCameraCapture. simpl.
    destruct (captureInterval s) as [h |]; [| reflexivity].
    destruct (negb (h =? 0)%Z); reflexivity.
  - apply stopCameraCapture_idempotent.
  - apply stopCameraCapture_idempotent.
Qed.

(** C1 (the code at the failing input): capture is started twice on tab 7
    within the startup delay. Nothing is cleared at the second start,
    because the handle is still null; both startup callbacks then create
    an interval. Two intervals are active for the tab, each period brings
    two capture attempts, and the first interval survives both a later
    stop and a later restart. *)
Theorem double_start_two_timers :
  let s := run double_start init in
  active_intervals s = [Timer 3 3000 7; Timer 4 3200 7] /\
  captureInterval s = Some 4%Z /\
  capture_ticks (elapse 2200 s) = [(3000, 3, 7); (3200, 4, 7)]%Z /\
  map timer_id (active_intervals (onRemoved 7 s)) = [3%Z].
Proof. vm_compute. repeat split; reflexivity. Qed.

(** ** Frame capture *)

Lemma mainVideo_suitable d video : mainVideo d = Some video -> suitable video = true.
Proof. unfold mainVideo. intros H. by apply List.find_some in H as [_ H]. Qed.

Lemma suitable_large video :
  suitable video = true ->
  (100 < offsetWidth (props_of video))%Z /\ (100 < offsetHeight (props_of video))%Z.
Proof.
  unfold suitable. rewrite !andb_true_iff, !Z.ltb_lt. tauto.
Qed.

(** C4: a video element whose rendered width and height are both at most
    100 is never the capturer's choice, whatever its ready state and
    media source. *)
Theorem small_video_never_selected (d : document) (video : node) :
  (offsetWidth (props_of video) <= 100)%Z ->
  (offsetHeight (props_of video) <= 100)%Z ->
  mainVideo d <> Some video.
Proof.
  intros Hw Hh Hsel.
  apply mainVideo_suitable, suitable_large in Hsel. lia.
Qed.

Lemma small_video_never_selected_witness :
  In thumbnail_video (querySelectorAll (ByTag "video") thumbnail_doc) /\
  mainVideo thumbnail_doc <> Some thumbnail_video.
Proof.
  split.
  - vm_compute. left. reflexivity.
  - apply small_video_never_selected; simpl; lia.
Defined.

Lemma capture_frame_no_timeout pg video : timeouts_of (capture_frame pg video) = [].
Proof. unfold capture_frame. by destruct (toDataURL pg video _ _). Qed.

(** The three ways an attempt goes. *)
Lemma captureCameraImage_found pages retryCount video :
  mainVideo (doc (pages retryCount)) = Some video ->
  captureCameraImage pages retryCount = capture_frame (pages retryCount) video.
Proof. intros H. simp captureCameraImage. rewrite H. reflexivity. Qed.

Lemma captureCameraImage_retry pages retryCount :
  mainVideo (doc (pages retryCount)) = None -> (retryCount < 10)%Z ->
  captureCameraImage pages retryCount =
  ConsoleLog "No suitable video element found, retrying..."
  :: SetTimeout 1000 (retryCount + 1)
  :: captureCameraImage pages (retryCount + 1).
Proof.
  intros H Hlt. rewrite captureCameraImage_equation_1. rewrite H. simpl.
  destruct (Z_lt_dec retryCount 10); [reflexivity | contradiction].
Qed.

Lemma captureCameraImage_give_up pages retryCount :
  mainVideo (doc (pages retryCount)) = None -> ~ (retryCount < 10)%Z ->
  captureCameraImage pages retryCount = [gave_up].
Proof.
  intros H Hge. rewrite captureCameraImage_equation_1. rewrite H. simpl.
  destruct (Z_lt_dec retryCount 10); [contradiction | reflexivity].
Qed.

(** Induction along the retries: the counter climbs towards 10. *)
Lemma retry_induction (P : Z -> Prop) :
  (forall retryCount, ((retryCount < 10)%Z -> P (retryCount + 1)%Z) -> P retryCount) ->
  forall retryCount, P retryCount.
Proof.
  intros Hstep retryCount.
  remember (Z.to_nat (10 - retryCount)) as n eqn:Hn.
  revert retryCount Hn.
  induction n as [| n IH]; intros retryCount Hn; apply Hstep; intros Hlt.
  - lia.
  - apply IH. lia.
Qed.

Lemma capture_frame_effects pg video :
  timeouts_of (capture_frame pg video) = [] /\
  (errors_of (capture_frame pg video) = [] \/
   messages_of (capture_frame pg video) = []).
Proof. unfold capture_frame. by destruct (toDataURL pg video _ _); auto. Qed.

Lemma retries_bounded pages retryCount :
  (length (timeouts_of (captureCameraImage pages retryCount))
   <= Z.to_nat (10 - retryCount))%nat.
Proof.
  revert retryCount. apply (retry_induction (fun rc => _)). intros rc IH.
  destruct (mainVideo (doc (pages rc))) as [video |] eqn:Hv.
  - rewrite (captureCameraImage_found _ _ _ Hv).
    destruct (capture_frame_effects (pages rc) video) as [-> _]. simpl. lia.
  - destruct (Z_lt_dec rc 10) as [Hlt | Hge].
    + rewrite (captureCameraImage_retry _ _ Hv Hlt).
      specialize (IH Hlt). cbn [timeouts_of length]. lia.
    + rewrite (captureCameraImage_give_up _ _ Hv Hge). simpl. lia.
Qed.

Lemma retries_fixed_delay pages retryCount delay next :
  In (delay, next) (timeouts_of (captureCameraImage pages retryCount)) ->
  delay = 1000%Z /\ (retryCount < next <= 10)%Z.
Proof.
  revert retryCount. apply (retry_induction (fun rc => _ -> _ /\ _)).
  intros rc IH.
  destruct (mainVideo (doc (pages rc))) as [video |] eqn:Hv.
  - rewrite (captureCameraImage_found _ _ _ Hv).
    destruct (capture_frame_effects (pages rc) video) as [-> _]. intros [].
  - destruct (Z_lt_dec rc 10) as [Hlt | Hge].
    + rewrite (captureCameraImage_retry _ _ Hv Hlt). cbn [timeouts_of].
      intros [[= <- <-] | Hin]; [lia |].
      destruct (IH Hlt Hin) as [-> Hb]. lia.
    + rewrite (captureCameraImage_give_up _ _ Hv Hge). intros [].
Qed.

Lemma never_suitable_gives_up pages retryCount :
  (forall n, mainVideo (doc (pages n)) = None) ->
  length (timeouts_of (captureCameraImage pages retryCount))
  = Z.to_nat (10 - retryCount) /\
  messages_of (captureCameraImage pages retryCount) = [] /\
  errors_of (captureCameraImage pages retryCount) = [] /\
  exists before, captureCameraImage pages retryCount = (before ++ [gave_up])%list.
Proof.
  intros Hnone. revert retryCount.
  apply (retry_induction (fun rc => _ /\ _ /\ _ /\ _)). intros rc IH.
  destruct (Z_lt_dec rc 10) as [Hlt | Hge].
  - rewrite (captureCameraImage_retry _ _ (Hnone rc) Hlt).
    destruct (IH Hlt) as (Hlen & Hmsg & Herr & before & Hlast).
    cbn [timeouts_of messages_of errors_of length].
    repeat split; [lia | exact Hmsg | exact Herr |].
    eexists (_ :: _ :: before). rewrite Hlast. reflexivity.
  - rewrite (captureCameraImage_give_up _ _ (Hnone rc) Hge). simpl.
    repeat split; [lia |]. by exists [].
Qed.

(** C5: a run of the capturer schedules at most (10 - retryCount)
    retries, at most 10 from the initial counter 0, each after 1000 ms
    and each with a larger counter that never exceeds 10; the function is
    total. When no attempt finds a suitable video it retries exactly that
    many times and then stops with a plain log line: no message is sent
    and no error is logged. *)
Theorem capture_retries_bounded (pages : Z -> page) (retryCount : Z) :
  let effects := captureCameraImage pages retryCount in
  (length (timeouts_of effects) <= Z.to_nat (10 - retryCount))%nat /\
  (length (timeouts_of (captureCameraImage pages 0)) <= 10)%nat /\
  (forall delay next, In (delay, next) (timeouts_of effects) ->
                      delay = 1000%Z /\ (retryCount < next <= 10)%Z) /\
  ((forall n, mainVideo (doc (pages n)) = None) ->
   length (timeouts_of effects) = Z.to_nat (10 - retryCount) /\
   messages_of effects = [] /\
   errors_of effects = [] /\
   exists before, effects = (before ++ [gave_up])%list).
Proof.
  intros effects. subst effects. repeat split.
  - apply retries_bounded.
  - apply (retries_bounded pages 0).
  - by eapply retries_fixed_delay.
  - by eapply retries_fixed_delay.
  - by eapply retries_fixed_delay.
  - by apply never_suitable_gives_up.
  - by apply never_suitable_gives_up.
  - by apply never_suitable_gives_up.
  - by apply never_suitable_gives_up.
Qed.

Lemma capture_retries_bounded_witness :
  length (timeouts_of (captureCameraImage thumbnail_pages 0)) = 10%nat /\
  messages_of (captureCameraImage thumbnail_pages 0) = [].
Proof.
  destruct (capture_retries_bounded thumbnail_pages 0) as (_ & _ & _ & Hnone).
  destruct Hnone as (Hlen & Hmsg & _).
  - intros n. vm_compute. reflexivity.
  - split; [exact Hlen | exact Hmsg].
Defined.

(** ** Device identifier *)

Lemma uuid_text_length bits : String.length (uuid_text bits) = 36%nat.
Proof. reflexivity. Qed.

Lemma uuid_text_truthy bits : truthy_string (Some (uuid_text bits)) = true.
Proof.
  pose proof (uuid_text_length bits) as Hlen.
  unfold truthy_string. destruct (uuid_text bits); [discriminate | reflexivity].
Qed.

(** A stored identifier that is not the empty string is handed to the
    callback as it is, and the world is left alone. *)
Lemma getDeviceId_stored {R} (callback : string -> world -> R) w deviceId :
  storage w !! "deviceId" = Some deviceId ->
  truthy_string (Some deviceId) = true ->
  getDeviceId callback w = callback deviceId w.
Proof. intros Hs Ht. unfold getDeviceId. by rewrite Hs, Ht. Qed.

(** Otherwise a new one is drawn and stored, and the callback runs on the
    storage that holds it. *)
Lemma getDeviceId_generated {R} (callback : string -> world -> R) w :
  truthy_string (storage w !! "deviceId") = false ->
  getDeviceId callback w =
  callback (uuid_text (entropy w (drawn w)))
           (storage_set "deviceId" (uuid_text (entropy w (drawn w)))
                        (snd (randomUUID w))).
Proof.
  intros Ht. unfold getDeviceId.
  destruct (storage w !! "deviceId") as [deviceId |]; [| reflexivity].
  by rewrite Ht.
Qed.

Lemma read_device_id_stored w :
  storage (snd (read_device_id w)) !! "deviceId" = Some (fst (read_device_id w)) /\
  truthy_string (Some (fst (read_device_id w))) = true.
Proof.
  unfold read_device_id.
  destruct (truthy_string (storage w !! "deviceId")) eqn:Ht.
  - destruct (storage w !! "deviceId") as [deviceId |] eqn:Hs; [| discriminate].
    rewrite (getDeviceId_stored _ _ _ Hs Ht). by split.
  - rewrite (getDeviceId_generated _ _ Ht). cbn [fst snd]. split.
    + unfold storage_set. cbn [storage]. apply lookup_insert_eq.
    + apply uuid_text_truthy.
Qed.

Lemma getDeviceId_callback {R} (callback : string -> world -> R) w :
  getDeviceId callback w =
  callback (fst (read_device_id w)) (snd (read_device_id w)).
Proof.
  unfold read_device_id, getDeviceId, randomUUID.
  destruct (storage w !! "deviceId") as [deviceId |]; [| reflexivity].
  by destruct (truthy_string (Some deviceId)).
Qed.

Lemma read_device_ids_repeat n w deviceId :
  storage w !! "deviceId" = Some deviceId ->
  truthy_string (Some deviceId) = true ->
  read_device_ids n w = repeat deviceId n.
Proof.
  intros Hs Ht. induction n as [| n IH]; [reflexivity |].
  cbn [read_device_ids repeat]. unfold read_device_id at 1 2.
  rewrite (getDeviceId_stored _ _ _ Hs Ht). cbn [fst snd]. by rewrite IH.
Qed.

(** C6: the identifier a call of [getDeviceId] hands to its callback is in
    the storage when the callback runs; when none was stored it is the
    newly drawn random identifier. From then on, as long as nobody else
    changes the storage, every call hands out that same identifier and
    changes nothing. *)
Theorem device_id_stable (w : world) :
  let deviceId := fst (read_device_id w) in
  let w1 := snd (read_device_id w) in
  (forall R (callback : string -> world -> R),
      getDeviceId callback w = callback deviceId w1) /\
  storage w1 !! "deviceId" = Some deviceId /\
  (truthy_string (storage w !! "deviceId") = false ->
   deviceId = uuid_text (entropy w (drawn w)) /\ drawn w1 = S (drawn w)) /\
  (forall w2 R (callback : string -> world -> R),
      storage w2 = storage w1 ->
      getDeviceId callback w2 = callback deviceId w2) /\
  (forall n, read_device_ids n w1 = repeat deviceId n).
Proof.
  intros deviceId w1.
  destruct (read_device_id_stored w) as [Hs Ht]. fold deviceId w1 in Hs, Ht.
  split; [| split; [exact Hs | split; [| split]]].
  - intros R callback. apply getDeviceId_callback.
  - intros Hnone. subst deviceId w1. unfold read_device_id.
    rewrite (getDeviceId_generated _ _ Hnone). by split.
  - intros w2 R callback Heq. apply getDeviceId_stored; [| exact Ht].
    by rewrite Heq.
  - intros n. by apply read_device_ids_repeat.
Qed.

Lemma device_id_stable_witness :
  fst (read_device_id fresh_world) = "00000000-0000-4000-8123-456789abcdef" /\
  read_device_ids 3 (snd (read_device_id fresh_world)) =
  repeat "00000000-0000-4000-8123-456789abcdef" 3.
Proof.
  destruct (device_id_stable fresh_world) as (_ & _ & Hnew & _ & Hsame).
  split.
  - destruct Hnew as [-> _]; reflexivity.
  - rewrite (Hsame 3%nat). reflexivity.
Defined.

(** ** Upload *)

(** Reading the device identifier touches the storage and the random
    source only. *)
Lemma read_device_id_frame w :
  let w1 := snd (read_device_id w) in
  server w1 = server w /\ date_iso w1 = date_iso w /\
  extension_url w1 = extension_url w /\ sent w1 = sent w /\
  console w1 = console w.
Proof.
  unfold read_device_id, getDeviceId, randomUUID.
  destruct (storage w !! "deviceId") as [deviceId |]; [| by repeat split].
  by destruct (truthy_string (Some deviceId)).
Qed.

Lemma upload_request_same_clock a b c d e f w w' :
  date_iso w = date_iso w' /\ extension_url w = extension_url w' ->
  upload_request a b c d e f w = upload_request a b c d e f w'.
Proof. intros [Hd Hu]. unfold upload_request. by rewrite Hd, Hu. Qed.

Lemma upload_for_console message lv text w :
  upload_for message (console_log lv text w) = upload_for message w.
Proof.
  unfold upload_for, read_device_id, getDeviceId, randomUUID.
  cbn [storage console_log entropy drawn].
  destruct (storage w !! "deviceId") as [deviceId |]; [| reflexivity].
  by destruct (truthy_string (Some deviceId)).
Qed.

(** What the listener answers, given what the endpoint answers. *)
Lemma onMessage_captured message w :
  captured message ->
  let req := upload_for message w in
  let w' := snd (onMessage message w) in
  sent w' = (sent w ++ [req])%list /\
  match server w req with
  | Response status payload =>
      if response_ok status
      then match payload with
           | Some result =>
               fst (onMessage message w) = Normal (Some (Reply true None))
           | None =>
               (exists reason, fst (onMessage message w) =
                               Normal (Some (Reply false (Some reason)))) /\
               logged LogError "Error sending image to backend:" w' /\
               logged LogError "Failed to send image from background:" w'
           end
      else fst (onMessage message w) =
           Normal (Some (Reply false
                     (Some ("HTTP error! status: " ++ string_of_Z status)))) /\
           logged LogError "Error sending image to backend:" w' /\
           logged LogError "Failed to send image from background:" w'
  | NetworkError reason =>
      fst (onMessage message w) = Normal (Some (Reply false (Some reason))) /\
      logged LogError "Error sending image to backend:" w' /\
      logged LogError "Failed to send image from background:" w'
  end.
Proof.
  intros Hcap req w'. subst req w'.
  rewrite <- (upload_for_console message LogInfo
                "Received image from content script for meeting:" w).
  unfold onMessage, upload_for. rewrite Hcap.
  rewrite getDeviceId_callback.
  set (w0 := console_log LogInfo _ w).
  pose proof (read_device_id_frame w0) as Hframe. cbv zeta in Hframe.
  destruct (read_device_id w0) as [deviceId w1]. cbn [fst snd] in Hframe |- *.
  destruct Hframe as (Hsrv & Hdate & Hurl & Hsent & Hcon).
  unfold sendImageToBackend.
  rewrite (upload_request_same_clock _ _ _ _ _ _ _ w0) by (split; assumption).
  set (req := upload_request _ _ _ _ _ _ w0).
  change (server (record_request req _)) with (server w1).
  rewrite Hsrv. change (server w0) with (server w).
  destruct (server w req) as [reason | status payload]; unfold upload_attempt;
    [| destruct (response_ok status); [destruct payload as [result |] |]].
  all: cbn [fst snd negb sent console console_log record_request];
    rewrite Hsent; repeat split; try reflexivity; try (by eexists).
  all: unfold logged; cbn [console console_log record_request];
    rewrite !in_app_iff; simpl; tauto.
Qed.

Lemma response_ok_range status :
  response_ok status = true <-> (200 <= status <= 299)%Z.
Proof. unfold response_ok. rewrite andb_true_iff, !Z.leb_le. tauto. Qed.

(** The promise of [sendImageToBackend] is rejected on a status outside
    200..299, after one request and one error line. *)
Lemma sendImageToBackend_rejects a b c d e f w status payload :
  server w (upload_request a b c d e f w) = Response status payload ->
  response_ok status = false ->
  let r := sendImageToBackend a b c d e f w in
  fst r = Throw ("HTTP error! status: " ++ string_of_Z status) /\
  sent (snd r) = (sent w ++ [upload_request a b c d e f w])%list /\
  logged LogError "Error sending image to backend:" (snd r).
Proof.
  intros Hsrv Hok r. subst r. unfold sendImageToBackend.
  rewrite (upload_request_same_clock _ _ _ _ _ _ _ w) by (by split).
  set (req := upload_request _ _ _ _ _ _ w) in *.
  change (server (record_request req _)) with (server w).
  rewrite Hsrv. unfold upload_attempt. rewrite Hok.
  cbn [negb fst snd sent console_log record_request]. repeat split.
  unfold logged. cbn [console console_log record_request].
  rewrite !in_app_iff. simpl. tauto.
Qed.

(** C3: when the endpoint answers the upload with a status outside
    200..299, the listener completes normally and answers
    [{ success: false, error }]; the failure is logged by the uploader and
    by the listener; and exactly one request was sent. *)
Theorem upload_failure_reported (message : json) (w : world)
        (status : Z) (payload : option json) :
  captured message ->
  server w (upload_for message w) = Response status payload ->
  (status < 200 \/ 299 < status)%Z ->
  let w' := snd (onMessage message w) in
  fst (onMessage message w) =
    Normal (Some (Reply false
              (Some ("HTTP error! status: " ++ string_of_Z status)))) /\
  logged LogError "Error sending image to backend:" w' /\
  logged LogError "Failed to send image from background:" w' /\
  sent w' = (sent w ++ [upload_for message w])%list.
Proof.
  intros Hcap Hsrv Hstatus w'. subst w'.
  destruct (onMessage_captured message w Hcap) as [Hsent Hans].
  rewrite Hsrv in Hans.
  destruct (response_ok status) eqn:Hok.
  - apply response_ok_range in Hok. lia.
  - destruct Hans as (Hreply & Hlog1 & Hlog2). by repeat split.
Qed.

Lemma upload_failure_reported_witness :
  fst (onMessage call_message failing_world) =
    Normal (Some (Reply false (Some "HTTP error! status: 500"))) /\
  length (sent (snd (onMessage call_message failing_world))) = 1%nat.
Proof.
  destruct (upload_failure_reported call_message failing_world 500
              (Some (JObj [("error", JStr "boom")])))
    as (Hreply & _ & _ & Hsent).
  - reflexivity.
  - reflexivity.
  - lia.
  - split; [exact Hreply | rewrite Hsent; reflexivity].
Defined.

Lemma image_captured_complete imageData meetingId userId userName participantId :
  captured (image_captured imageData meetingId userId userName participantId) /\
  complete (image_captured imageData meetingId userId userName participantId).
Proof.
  split; [reflexivity |].
  unfold complete. repeat constructor; cbn; eauto.
Qed.

(** Every message the capturer sends is a captured-image message with all
    five fields. *)
Lemma capturer_messages_complete pages retryCount m :
  In m (messages_of (captureCameraImage pages retryCount)) ->
  captured m /\ complete m.
Proof.
  revert retryCount. apply (retry_induction (fun rc => _ -> _)). intros rc IH.
  destruct (mainVideo (doc (pages rc))) as [video |] eqn:Hv.
  - rewrite (captureCameraImage_found _ _ _ Hv). unfold capture_frame.
    destruct (toDataURL _ _ _ _); cbn [messages_of]; [| intros []].
    intros [<- | []]. apply image_captured_complete.
  - destruct (Z_lt_dec rc 10) as [Hlt | Hge].
    + rewrite (captureCameraImage_retry _ _ Hv Hlt). cbn [messages_of].
      by apply IH.
    + rewrite (captureCameraImage_give_up _ _ Hv Hge). intros [].
Qed.

Lemma complete_fields message :
  complete message ->
  exists imageData meetingId userId participantId userName,
    message_field "imageData" message = Some imageData /\
    message_field "meetingId" message = Some meetingId /\
    message_field "userId" message = Some userId /\
    message_field "participantId" message = Some participantId /\
    message_field "userName" message = Some userName.
Proof.
  unfold complete. intros H.
  rewrite !Forall_cons in H.
  destruct H as ([a Ha] & [b Hb] & [c Hc] & [d Hd] & [e He] & _).
  by exists a, b, c, d, e.
Qed.

(** C7: for a captured-image message carrying its five fields, as every
    message of the capturer does, the listener sends exactly one request:
    a POST to the fixed endpoint, declared as JSON, whose body is an object
    with exactly the fields imageData, meetingId, timestamp, userId,
    participantId, userName, deviceId; timestamp is the client's clock
    reading, deviceId the stored identifier, the rest the message's
    values. The listener reports success exactly when the endpoint answers
    with a status in 200..299 and a JSON body. *)
Theorem upload_is_single_post (message : json) (w : world) :
  captured message -> complete message ->
  let req := upload_for message w in
  let w' := snd (onMessage message w) in
  sent w' = (sent w ++ [req])%list /\
  url req = BACKEND_URL /\
  method req = "POST" /\
  assoc "Content-Type" (headers req) = Some "application/json" /\
  map fst (body_fields req) =
    ["imageData"; "meetingId"; "timestamp"; "userId"; "participantId";
     "userName"; "deviceId"] /\
  body req = JObj (body_fields req) /\
  assoc "timestamp" (body_fields req) = Some (JStr (date_iso w)) /\
  assoc "deviceId" (body_fields req) = Some (JStr (fst (read_device_id w))) /\
  Forall (fun key => assoc key (body_fields req) = message_field key message)
         ["imageData"; "meetingId"; "userId"; "participantId"; "userName"] /\
  (fst (onMessage message w) = Normal (Some (Reply true None)) <->
   exists status result,
     server w req = Response status (Some result) /\ (200 <= status <= 299)%Z).
Proof.
  intros Hcap Hcomplete req w'.
  destruct (onMessage_captured message w Hcap) as [Hsent Hans].
  fold req in Hsent, Hans.
  destruct (complete_fields message Hcomplete)
    as (imageData & meetingId & userId & participantId & userName &
        Hi & Hm & Hu & Hp & Hn).
  split; [exact Hsent |].
  assert (Hbody : body_fields req =
                  [ ("imageData", imageData); ("meetingId", meetingId);
                    ("timestamp", JStr (date_iso w)); ("userId", userId);
                    ("participantId", participantId); ("userName", userName);
                    ("deviceId", JStr (fst (read_device_id w))) ]).
  { subst req. unfold upload_for, upload_request, body_fields. cbn [body].
    rewrite Hi, Hm, Hu, Hp, Hn. reflexivity. }
  split; [reflexivity |]. split; [reflexivity |]. split; [reflexivity |].
  split; [by rewrite Hbody |].
  split; [reflexivity |].
  split; [by rewrite Hbody |]. split; [by rewrite Hbody |].
  split; [rewrite Hbody; repeat constructor;
          rewrite ?Hi, ?Hm, ?Hu, ?Hp, ?Hn; reflexivity |].
  clear Hbody.
  destruct (server w req) as [reason | status payload].
  - split; [| intros (? & ? & [=] & _)].
    destruct Hans as [-> _]. discriminate.
  - destruct (response_ok status) eqn:Hok.
    + destruct payload as [result |].
      * split; [| intros _; exact Hans].
         intros _. exists status, result. split; [reflexivity |].
         by apply response_ok_range.
      * destruct Hans as [[reason ->] _].
         split; [discriminate | intros (? & ? & [=] & _)].
    + destruct Hans as [-> _]. split; [discriminate |].
      intros (st & result & [= <- _] & Hrange).
      apply response_ok_range in Hrange. congruence.
Qed.

Lemma upload_is_single_post_witness :
  In call_message (messages_of (captureCameraImage call_pages 0)) /\
  sent (snd (onMessage call_message fresh_world)) =
    [upload_for call_message fresh_world] /\
  fst (onMessage call_message fresh_world) = Normal (Some (Reply true None)).
Proof.
  split; [vm_compute; left; reflexivity |].
  destruct (image_captured_complete "data:image/jpeg;base64,/9j/4AAQ"
              "abc-defg-hij" (Some "u-17") (Some "Ada Lovelace")
              (Some "spaces/x/devices/42")) as [Hcap Hcomplete].
  destruct (upload_is_single_post call_message fresh_world Hcap Hcomplete)
    as (Hsent & _ & _ & _ & _ & _ & _ & _ & _ & Hok).
  split; [exact Hsent |].
  apply Hok. exists 200%Z, (JObj [("success", JBool true)]).
  split; [reflexivity | lia].
Defined.

(** ** Dashboard *)








Example to_string_of_array :
  Dashboard.to_string
    (JArr [JNum "1"; JNull; JArr [JNum "2"; JStr "x"]; JObj [("a", JNull)]])
  = Normal "1,,2,x,[object Object]".
Proof. reflexivity. Qed.

Example to_string_hidden_by_field :
  Dashboard.to_string (JArr [JNum "1"; JObj [("toString", JNum "1")]])
  = Throw "TypeError: Cannot convert object to primitive value" /\
  shown (Dashboard.FetchResponse (Some (JArr unprintable_row))) blank_view
  = Dashboard.error_html.
Proof. split; reflexivity. Qed.





(* ===================================================================== *)
(** * Further properties of the scripts *)
(* ===================================================================== *)

Set Warnings "-clear-no-such-hyp".

(** ** Capture scheduling: timing *)

Lemma filter_none {A} (f : A -> bool) l :
  (forall x, In x l -> f x = false) -> List.filter f l = [].
Proof.
  induction l as [| x l IH]; intros H; [reflexivity |]. simpl.
  rewrite (H x) by (by left). apply IH. intros y Hy. apply H. by right.
Qed.

Lemma filter_all {A} (f : A -> bool) l :
  (forall x, In x l -> f x = true) -> List.filter f l = l.
Proof.
  induction l as [| x l IH]; intros H; [reflexivity |]. simpl.
  rewrite (H x) by (by left). f_equal. apply IH. intros y Hy. apply H. by right.
Qed.

Lemma map_same {A} (f : A -> A) l :
  (forall x, In x l -> f x = x) -> map f l = l.
Proof.
  induction l as [| x l IH]; intros H; [reflexivity |]. simpl.
  rewrite (H x) by (by left). f_equal. apply IH. intros y Hy. apply H. by right.
Qed.

(** While no timer is due, time passing changes the clock only. *)
Lemma advance_quiet t nx p a h b tk :
  (forall x, In x p -> (t + 1 < due x)%Z) ->
  (forall x, In x a -> (t + 1 < due x)%Z) ->
  advance (State t nx p a h b tk) = State (t + 1) nx p a h b tk.
Proof.
  intros Hp Ha. unfold advance, run_timeouts, run_intervals. cbn.
  assert (Hnp : forall x, In x p -> is_due (t + 1) x = false)
    by (intros x Hx; apply Z.leb_gt; by apply Hp).
  assert (Hna : forall x, In x a -> is_due (t + 1) x = false)
    by (intros x Hx; apply Z.leb_gt; by apply Ha).
  rewrite (filter_none _ p Hnp). cbn.
  rewrite (filter_all _ p) by (intros x Hx; by rewrite (Hnp x Hx)).
  rewrite (filter_none _ a Hna).
  rewrite (map_same _ a) by (intros x Hx; by rewrite (Hna x Hx)).
  by rewrite app_nil_r.
Qed.

Lemma elapse_quiet n t nx p a h b tk :
  (forall x, In x p -> (t + Z.of_nat n < due x)%Z) ->
  (forall x, In x a -> (t + Z.of_nat n < due x)%Z) ->
  elapse n (State t nx p a h b tk) = State (t + Z.of_nat n) nx p a h b tk.
Proof.
  induction n as [| n IH]; intros Hp Ha.
  - simpl. by rewrite Z.add_0_r.
  - change (elapse (S n) ?x) with (advance (elapse n x)). rewrite IH.
    + rewrite advance_quiet.
      * f_equal. lia.
      * intros x Hx. specialize (Hp x Hx). lia.
      * intros x Hx. specialize (Ha x Hx). lia.
    + intros x Hx. specialize (Hp x Hx). lia.
    + intros x Hx. specialize (Ha x Hx). lia.
Qed.

Lemma elapse_add n m s : elapse (n + m) s = elapse n (elapse m s).
Proof. unfold elapse. apply Nat.iter_add. Qed.

Lemma advance_fires_startup t nx i tabId h b tk :
  advance (State t nx [Timer i (t + 1) tabId] [] h b tk)
  = State (t + 1) (nx + 1) [] [Timer nx (t + 1 + 2000) tabId] (Some nx) b tk.
Proof.
  unfold advance, run_timeouts, run_intervals, is_due. cbn.
  rewrite Z.leb_refl. cbn.
  replace (t + 1 + 2000 <=? t + 1)%Z with false by (symmetry; apply Z.leb_gt; lia).
  cbn. by rewrite app_nil_r.
Qed.

Lemma advance_fires_interval t nx i tabId h b tk :
  advance (State t nx [] [Timer i (t + 1) tabId] h b tk)
  = State (t + 1) nx [] [Timer i (t + 1 + 2000) tabId] h b
          (tk ++ [((t + 1)%Z, i, tabId)])%list.
Proof.
  unfold advance, run_timeouts, run_intervals, is_due. cbn.
  rewrite Z.leb_refl. reflexivity.
Qed.

Lemma start_on_settled tabId s :
  settled s ->
  startCameraCapture tabId s
  = State (now s) (next_handle s + 1)
          [Timer (next_handle s) (now s + 1000) tabId] []
          (captureInterval s) (badge s) (capture_ticks s).
Proof.
  destruct s as [t nx p a held b tk]. intros [Hp Ha]. simpl in *. subst p.
  unfold startCameraCapture, setTimeout_startup.
  cbn [captureInterval now next_handle pending_timeouts active_intervals
       badge capture_ticks].
  destruct held as [h |].
  - unfold truthy_handle. destruct (Z.eqb_spec h 0) as [-> | Hnz]; cbn [negb].
    + destruct a as [| i a]; [reflexivity |].
      destruct (Ha i (or_introl eq_refl)) as [[= Hi] Hne]. congruence.
    + unfold clearInterval. cbn. rewrite filter_none; [reflexivity |].
      intros x Hx. destruct (Ha x Hx) as [[= ->] _].
      unfold keep_other. by rewrite Z.eqb_refl.
  - destruct a as [| i a]; [reflexivity |].
    destruct (Ha i (or_introl eq_refl)) as [[=] _].
Qed.

(** From a settled state, a start brings up exactly one interval once
    the startup delay has passed. *)
Lemma startup_on_settled tabId s :
  settled s ->
  elapse 1000 (startCameraCapture tabId s)
  = State (now s + 1000) (next_handle s + 2) []
          [Timer (next_handle s + 1) (now s + 3000) tabId]
          (Some (next_handle s + 1)%Z) (badge s) (capture_ticks s).
Proof.
  intros Hs. rewrite (start_on_settled _ _ Hs).
  change 1000%nat with (1 + 999)%nat. rewrite elapse_add.
  rewrite elapse_quiet.
  - change (elapse 1 ?x) with (advance x).
    replace (now s + 1000)%Z with (now s + Z.of_nat 999 + 1)%Z by lia.
    rewrite advance_fires_startup. f_equal; try lia. do 2 f_equal. lia.
  - intros x [<- | []]. simpl. lia.
  - intros x [].
Qed.

(** One period of a lone interval: one tick, at the end of the period. *)
Lemma period_of_lone_interval t nx i tabId h b tk :
  elapse 2000 (State t nx [] [Timer i (t + 2000) tabId] h b tk)
  = State (t + 2000) nx [] [Timer i (t + 4000) tabId] h b
          (tk ++ [((t + 2000)%Z, i, tabId)])%list.
Proof.
  change 2000%nat with (1 + 1999)%nat. rewrite elapse_add.
  rewrite elapse_quiet.
  - change (elapse 1 ?x) with (advance x).
    replace (t + 2000)%Z with (t + Z.of_nat 1999 + 1)%Z by lia.
    rewrite advance_fires_interval. f_equal. do 2 f_equal. lia.
  - intros x [].
  - intros x [<- | []]. simpl. lia.
Qed.

Lemma periods_of_lone_interval k : forall t nx i tabId h b tk,
  elapse (2000 * k) (State t nx [] [Timer i (t + 2000) tabId] h b tk)
  = State (t + 2000 * Z.of_nat k) nx []
          [Timer i (t + 2000 * Z.of_nat k + 2000) tabId] h b
          (tk ++ ticks_from (t + 2000) k i tabId)%list.
Proof.
  induction k as [| k IH]; intros t nx i tabId h b tk.
  - rewrite Nat.mul_0_r. cbn [ticks_from]. rewrite app_nil_r.
    change (elapse 0 ?x) with x. f_equal; try lia. do 2 f_equal. lia.
  - replace (2000 * S k)%nat with (2000 * k + 2000)%nat by lia.
    rewrite elapse_add, period_of_lone_interval.
    replace (t + 4000)%Z with (t + 2000 + 2000)%Z by lia.
    rewrite IH. cbn [ticks_from]. rewrite <- app_assoc. cbn [app].
    f_equal; try lia. do 2 f_equal. lia.
Qed.

(** X1: from a settled state (nothing waiting to start, no interval
    running besides the one held), a start brings up exactly one interval
    after the 1000 ms startup delay, and [k] periods later exactly [k]
    capture ticks have been added, all for that tab, the first 3000 ms
    after the start and the others 2000 ms apart. *)
Theorem start_gives_periodic_ticks (s : state) (tabId : Z) (k : nat) :
  settled s ->
  let s' := elapse (1000 + 2000 * k) (startCameraCapture tabId s) in
  active_intervals s'
  = [Timer (next_handle s + 1) (now s + 3000 + 2000 * Z.of_nat k) tabId] /\
  captureInterval s' = Some (next_handle s + 1)%Z /\
  pending_timeouts s' = [] /\
  capture_ticks s'
  = (capture_ticks s ++
     ticks_from (now s + 3000) k (next_handle s + 1) tabId)%list.
Proof.
  intros Hs s'. subst s'.
  rewrite Nat.add_comm, elapse_add, (startup_on_settled _ _ Hs).
  replace (now s + 3000)%Z with (now s + 1000 + 2000)%Z by lia.
  rewrite periods_of_lone_interval. cbn.
  repeat split. do 2 f_equal. lia.
Qed.

Lemma start_gives_periodic_ticks_witness :
  capture_ticks (elapse (1000 + 2000 * 2) (startCameraCapture 7 init))
  = [(3000, 2, 7); (5000, 2, 7)]%Z.
Proof.
  destruct (start_gives_periodic_ticks init 7 2) as (_ & _ & _ & Hticks).
  - split; [reflexivity | intros i []].
  - exact Hticks.
Defined.

(** *** What a stop leaves behind *)

Lemma fire_timeouts_shape ready : forall s,
  let s' := fold_left fire_timeout ready s in
  map for_tab (active_intervals s')
  = (map for_tab (active_intervals s) ++ map for_tab ready)%list /\
  pending_timeouts s' = pending_timeouts s /\
  now s' = now s /\ badge s' = badge s.
Proof.
  induction ready as [| t ready IH]; intros s.
  - cbn. by rewrite app_nil_r.
  - cbn [fold_left]. destruct (IH (fire_timeout s t)) as (Ha & Hp & Hn & Hb).
    cbn zeta. rewrite Ha, Hp, Hn, Hb. cbn.
    by rewrite map_app, <- app_assoc.
Qed.

(** One millisecond: the timeouts that come due become intervals for
    their tabs, the others stay pending; intervals stay. *)
Lemma advance_shape s :
  map for_tab (active_intervals (advance s))
  = (map for_tab (active_intervals s) ++
     map for_tab (List.filter (is_due (now s + 1)) (pending_timeouts s)))%list /\
  pending_timeouts (advance s)
  = List.filter (fun t => negb (is_due (now s + 1) t)) (pending_timeouts s) /\
  now (advance s) = (now s + 1)%Z /\
  badge (advance s) = badge s.
Proof.
  unfold advance, run_intervals, run_timeouts.
  cbn [now next_handle pending_timeouts active_intervals captureInterval
       badge capture_ticks].
  set (r := List.filter (is_due (now s + 1)) (pending_timeouts s)).
  set (later := List.filter _ (pending_timeouts s)).
  destruct (fire_timeouts_shape r
              (State (now s + 1) (next_handle s) later (active_intervals s)
                     (captureInterval s) (badge s) (capture_ticks s)))
    as (Ha & Hp & Hn & Hb).
  cbn zeta in Ha, Hp, Hn, Hb.
  cbn [now pending_timeouts active_intervals badge] in Ha, Hp, Hn, Hb.
  set (F := fold_left fire_timeout r _) in *.
  rewrite <- Ha. repeat split; try assumption.
  rewrite map_map. apply map_ext. intros t.
  by destruct (is_due _ t).
Qed.

Lemma elapse_keeps_intervals n : forall s tabId,
  In tabId (map for_tab (active_intervals s)) ->
  In tabId (map for_tab (active_intervals (elapse n s))).
Proof.
  induction n as [| n IH]; intros s tabId Hin; [exact Hin |].
  change (elapse (S n) s) with (advance (elapse n s)).
  destruct (advance_shape (elapse n s)) as [-> _].
  apply in_or_app. left. by apply IH.
Qed.

Lemma elapse_clock n s :
  now (elapse n s) = (now s + Z.of_nat n)%Z /\ badge (elapse n s) = badge s.
Proof.
  induction n as [| n [IHn IHb]]; [simpl; split; [lia | reflexivity] |].
  change (elapse (S n) s) with (advance (elapse n s)).
  destruct (advance_shape (elapse n s)) as (_ & _ & -> & ->). split; [lia | exact IHb].
Qed.

(** A pending startup timeout becomes an interval for its tab by the
    time it is due. *)
Lemma pending_becomes_interval n : forall s t,
  In t (pending_timeouts s) -> (1 <= n)%nat ->
  (due t <= now s + Z.of_nat n)%Z ->
  In (for_tab t) (map for_tab (active_intervals (elapse n s))).
Proof.
  induction n as [| n IH]; intros s t Hin Hn Hdue; [lia |].
  replace (S n) with (n + 1)%nat by lia. rewrite elapse_add.
  change (elapse 1 s) with (advance s).
  destruct (advance_shape s) as (Ha & Hp & Hnow & _).
  destruct (is_due (now s + 1) t) eqn:Hd.
  - apply elapse_keeps_intervals. rewrite Ha. apply in_or_app. right.
    apply in_map. apply filter_In. by split.
  - apply IH.
    + rewrite Hp. apply filter_In. split; [exact Hin | by rewrite Hd].
    + unfold is_due in Hd. apply Z.leb_gt in Hd. lia.
    + rewrite Hnow. lia.
Qed.

Lemma filter_sub {A} (f : A -> bool) l x : In x (List.filter f l) -> In x l.
Proof. intros H. by apply filter_In in H as [H _]. Qed.

Lemma held_clearInterval h s :
  held_is_interval s -> held_is_interval (clearInterval h s).
Proof.
  intros [Hp Hh]. split; simpl.
  - intros t Ht. apply Hp. by apply filter_sub in Ht.
  - intros h' Hc. destruct (Hh h' Hc) as [Hlt Hnot]. split; [exact Hlt |].
    intros Hin. apply Hnot. apply in_map_iff in Hin as (t & <- & Ht).
    apply in_map. by apply filter_sub in Ht.
Qed.

Lemma held_startCameraCapture tabId s :
  held_is_interval s -> held_is_interval (startCameraCapture tabId s).
Proof.
  intros Hs. unfold startCameraCapture.
  set (cleared := match captureInterval s with Some _ => _ | None => _ end).
  assert (Hc : held_is_interval cleared /\
               next_handle cleared = next_handle s).
  { subst cleared. destruct (captureInterval s) as [h |]; [| by split].
    destruct (truthy_handle (Some h)); [| by split].
    split; [by apply held_clearInterval | reflexivity]. }
  destruct Hc as [[Hp Hh] Hnx]. clearbody cleared.
  split; simpl.
  - intros t Ht. apply in_app_or in Ht as [Ht | [<- | []]].
    + specialize (Hp t Ht). lia.
    + simpl. lia.
  - intros h Hheld. destruct (Hh h Hheld) as [Hlt Hnot]. split; [lia |].
    rewrite map_app. intros Hin. apply in_app_or in Hin as [Hin | [Heq | []]].
    + by apply Hnot.
    + simpl in Heq. lia.
Qed.

Lemma held_stopCameraCapture s :
  held_is_interval s -> held_is_interval (stopCameraCapture s).
Proof.
  intros Hs. unfold stopCameraCapture.
  destruct (captureInterval s) as [h |]; [| exact Hs].
  destruct (truthy_handle (Some h)); [| exact Hs].
  destruct (held_clearInterval h s Hs) as [Hp _].
  split; [exact Hp | discriminate].
Qed.

Lemma held_fire_timeouts ready : forall s,
  held_is_interval s -> held_is_interval (fold_left fire_timeout ready s).
Proof.
  induction ready as [| t ready IH]; intros s Hs; [exact Hs |].
  cbn [fold_left]. apply IH. destruct Hs as [Hp Hh]. split; simpl.
  - intros x Hx. specialize (Hp x Hx). lia.
  - intros h [= <-]. split; [lia |].
    intros Hin. apply in_map_iff in Hin as (x & Hid & Hx).
    specialize (Hp x Hx). lia.
Qed.

Lemma held_advance s : held_is_interval s -> held_is_interval (advance s).
Proof.
  intros [Hp Hh]. unfold advance, run_intervals, run_timeouts.
  cbn [now next_handle pending_timeouts active_intervals captureInterval
       badge capture_ticks].
  match goal with
  | |- context [fold_left fire_timeout ?r ?s0] =>
      assert (Hf : held_is_interval (fold_left fire_timeout r s0))
  end.
  { apply held_fire_timeouts. split; simpl.
    - intros t Ht. apply Hp. by apply filter_sub in Ht.
    - intros h Hc. destruct (Hh h Hc) as [Hlt Hnot]. split; [exact Hlt |].
      intros Hin. apply Hnot. apply in_map_iff in Hin as (t & <- & Ht).
      apply in_map. by apply filter_sub in Ht. }
  exact Hf.
Qed.

Lemma held_run events : forall s,
  held_is_interval s -> held_is_interval (run events s).
Proof.
  unfold run. induction events as [| e events IH]; intros s Hs; [exact Hs |].
  cbn [fold_left]. apply IH.
  assert (Hstatus : forall tabId page,
             held_is_interval (on_meeting_status tabId page s)).
  { intros tabId page. unfold on_meeting_status.
    destruct (in_meeting page);
      [by apply held_startCameraCapture | by apply held_stopCameraCapture]. }
  destruct e as [tabId status url page | tabId | tabId url page | ms]; simpl.
  - unfold onUpdated. destruct status as [st |]; [| exact Hs].
    destruct (String.eqb st "complete" && is_meet_url url);
      [apply Hstatus | exact Hs].
  - unfold onRemoved. by apply held_stopCameraCapture.
  - unfold onActivated. destruct (is_meet_url url); [apply Hstatus | exact Hs].
  - unfold elapse. induction ms as [| ms IHms]; [exact Hs |].
    cbn [Nat.iter]. by apply held_advance.
Qed.

Lemma held_init : held_is_interval init.
Proof. split; [intros t [] | discriminate]. Qed.

(** Stopping leaves the pending startup timeouts alone. *)
Lemma stop_keeps_pending s :
  held_is_interval s ->
  pending_timeouts (stopCameraCapture s) = pending_timeouts s.
Proof.
  intros [_ Hh]. unfold stopCameraCapture.
  destruct (captureInterval s) as [h |]; [| reflexivity].
  destruct (truthy_handle (Some h)); [| reflexivity].
  cbn. apply filter_all. intros t Ht.
  destruct (Hh h eq_refl) as [_ Hnot]. unfold keep_other.
  destruct (Z.eqb_spec (timer_id t) h) as [<- | _]; [| reflexivity].
  exfalso. apply Hnot. by apply in_map.
Qed.

(** X2: removing a tab cancels no startup that is still waiting. Whatever
    happened before, the pending startup timeouts are the same after the
    removal handler as before it; so once its delay has passed, an
    interval is running for the tab of each of them, although the badge
    has been blanked. *)
Theorem removal_does_not_cancel_startup
        (events : list event) (removed : Z) (t : timer) (n : nat) :
  let s := run events init in
  In t (pending_timeouts s) -> (1 <= n)%nat ->
  (due t <= now s + Z.of_nat n)%Z ->
  pending_timeouts (onRemoved removed s) = pending_timeouts s /\
  badge (elapse n (onRemoved removed s)) = "" /\
  In (for_tab t)
     (map for_tab (active_intervals (elapse n (onRemoved removed s)))).
Proof.
  intros s Hin Hn Hdue.
  assert (Hs : held_is_interval s) by apply held_run, held_init.
  assert (Hp : pending_timeouts (onRemoved removed s) = pending_timeouts s).
  { unfold onRemoved. by rewrite stop_keeps_pending. }
  assert (Hnow : now (onRemoved removed s) = now s /\
                 badge (onRemoved removed s) = "").
  { unfold onRemoved, stopCameraCapture. cbn.
    destruct (captureInterval s) as [h |]; [| by split].
    destruct (negb (h =? 0)%Z); by split. }
  destruct Hnow as [Hnow Hbadge].
  split; [exact Hp | split].
  - destruct (elapse_clock n (onRemoved removed s)) as [_ ->]. exact Hbadge.
  - apply pending_becomes_interval; [by rewrite Hp | exact Hn | by rewrite Hnow].
Qed.

Lemma removal_does_not_cancel_startup_witness :
  In 7%Z (map for_tab (active_intervals
     (elapse 800 (onRemoved 7
        (run [TabUpdated 7 (Some "complete") meet_url (Some muted_doc);
              Elapse 200] init))))).
Proof.
  apply (removal_does_not_cancel_startup
           [TabUpdated 7 (Some "complete") meet_url (Some muted_doc); Elapse 200]
           7 (Timer 1 1000 7) 800).
  - vm_compute. left. reflexivity.
  - lia.
  - vm_compute. discriminate.
Defined.

(** ** The popup *)

Lemma find_first_passing {A} (f : A -> bool) l t :
  List.find f l = Some t <-> first_passing f l t.
Proof.
  unfold first_passing. split.
  - induction l as [| x l IH]; [discriminate |]. simpl.
    destruct (f x) eqn:Hx.
    + intros [= <-]. by exists [], l.
    + intros Hfind. destruct (IH Hfind) as (before & after & -> & Ht & Hb).
      exists (x :: before), after. split; [reflexivity |]. split; [exact Ht |].
      by constructor.
  - intros (before & after & -> & Ht & Hb).
    induction Hb as [| x before Hx _ IH]; simpl; [by rewrite Ht |].
    by rewrite Hx.
Qed.

Lemma find_none_passing {A} (f : A -> bool) l :
  List.find f l = None <-> Forall (fun x => f x = false) l.
Proof.
  induction l as [| x l IH]; simpl.
  - split; [constructor | reflexivity].
  - destruct (f x) eqn:Hx; rewrite ?IH; split.
    + discriminate.
    + intros H. apply Forall_cons_1 in H as [H _]. congruence.
    + intros H. by constructor.
    + intros H. by apply Forall_cons_1 in H as [_ H].
Qed.

(** X3: the popup's display is decided by the first tab that is active
    and on a Meet address. Whatever classes the dot carried, afterwards
    it carries exactly one of "active" and "inactive"; it is "active",
    with the label "Active - Sending images to server", exactly when that
    first tab exists and the popup's detector finds a meeting in it; the
    label is "Inactive - No Meet tab" exactly when no tab is active and on
    a Meet address. Tabs after the first such tab are never looked at. *)
Theorem popup_shows_first_meet_tab (tabs : list Popup.tab) (v : Popup.view) :
  ("active" ∈ popup_dot tabs v <-> "inactive" ∉ popup_dot tabs v) /\
  ("active" ∈ popup_dot tabs v <->
   popup_label tabs v = "Active - Sending images to server") /\
  (popup_label tabs v = "Active - Sending images to server" <->
   exists t, first_passing Popup.is_active_meet tabs t /\
             Popup.in_meeting (Popup.tab_page t) = true) /\
  (popup_label tabs v = "Inactive - Not in meeting" <->
   exists t, first_passing Popup.is_active_meet tabs t /\
             Popup.in_meeting (Popup.tab_page t) = false) /\
  (popup_label tabs v = "Inactive - No Meet tab" <->
   Forall (fun t => Popup.is_active_meet t = false) tabs) /\
  (forall before t after,
     Forall (fun x => Popup.is_active_meet x = false) before ->
     Popup.is_active_meet t = true ->
     Popup.onDOMContentLoaded (before ++ t :: after) v
     = Popup.onDOMContentLoaded [t] v).
Proof.
  unfold popup_dot, popup_label, Popup.onDOMContentLoaded.
  split; [| split; [| split; [| split; [| split]]]].
  - destruct (List.find _ tabs) as [t |]; [destruct (Popup.in_meeting _) |];
      cbn; set_solver.
  - destruct (List.find _ tabs) as [t |]; [destruct (Popup.in_meeting _) |];
      cbn; split; try discriminate; set_solver.
  - destruct (List.find _ tabs) as [t |] eqn:Hfind.
    + apply find_first_passing in Hfind.
      destruct (Popup.in_meeting (Popup.tab_page t)) eqn:Hm; cbn.
      * split; [intros _; by exists t | reflexivity].
      * split; [discriminate |]. intros (t' & Hfirst & Hm').
        apply find_first_passing in Hfind, Hfirst. congruence.
    + cbn. split; [discriminate |]. intros (t' & Hfirst & _).
      apply find_first_passing in Hfirst. congruence.
  - destruct (List.find _ tabs) as [t |] eqn:Hfind.
    + apply find_first_passing in Hfind.
      destruct (Popup.in_meeting (Popup.tab_page t)) eqn:Hm; cbn.
      * split; [discriminate |]. intros (t' & Hfirst & Hm').
        apply find_first_passing in Hfind, Hfirst. congruence.
      * split; [intros _; by exists t | reflexivity].
    + cbn. split; [discriminate |]. intros (t' & Hfirst & _).
      apply find_first_passing in Hfirst. congruence.
  - destruct (List.find _ tabs) as [t |] eqn:Hfind.
    + split.
      * destruct (Popup.in_meeting _); discriminate.
      * intros Hnone. apply find_none_passing in Hnone. congruence.
    + split; [| reflexivity]. intros _. by apply find_none_passing.
  - intros before t after Hb Ht.
    assert (Hfind : List.find Popup.is_active_meet (before ++ t :: after) = Some t).
    { apply find_first_passing. by exists before, after. }
    rewrite Hfind. simpl. by rewrite Ht.
Qed.

Lemma popup_shows_first_meet_tab_witness :
  Popup.onDOMContentLoaded
    [ Popup.Tab 3 (Some "https://example.org/") true None;
      Popup.Tab 7 meet_url true (Some video_only_doc);
      Popup.Tab 9 meet_url true (Some muted_doc) ]
    (Popup.View ∅ "" "")
  = Popup.onDOMContentLoaded
      [ Popup.Tab 7 meet_url true (Some video_only_doc) ] (Popup.View ∅ "" "").
Proof.
  destruct (popup_shows_first_meet_tab
              [ Popup.Tab 3 (Some "https://example.org/") true None;
                Popup.Tab 7 meet_url true (Some video_only_doc);
                Popup.Tab 9 meet_url true (Some muted_doc) ]
              (Popup.View ∅ "" ""))
    as (_ & _ & _ & _ & _ & Hfirst).
  apply (Hfirst [Popup.Tab 3 (Some "https://example.org/") true None]).
  - repeat constructor.
  - reflexivity.
Defined.

Lemma start_badge_and_pending tabId s :
  badge (startCameraCapture tabId s) = badge s /\
  In tabId (map for_tab (pending_timeouts (startCameraCapture tabId s))).
Proof.
  unfold startCameraCapture, setTimeout_startup. cbn. split.
  - destruct (captureInterval s) as [h |]; [| reflexivity].
    by destruct (negb (h =? 0)%Z).
  - rewrite map_app. apply in_or_app. right. by left.
Qed.

(** X4: whenever the popup's detector finds a meeting, so does the
    background's. The converse fails in use: for a Meet tab whose page has
    a video element and none of the four attribute and tooltip markers,
    the popup reports "Inactive - Not in meeting" while the background's
    activation handler turns the badge ON and schedules a capture startup
    for that tab. *)
Theorem popup_and_background_status (d : document) :
  (Popup.checkMeetingStatus d = true -> Background.checkMeetingStatus d = true) /\
  (forall tabId url v s,
     is_meet_url url = true -> present is_video d ->
     ~ present attribute_marker d ->
     popup_label [Popup.Tab tabId url true (Some d)] v
     = "Inactive - Not in meeting" /\
     badge (onActivated tabId url (Some d) s) = "ON" /\
     In tabId (map for_tab (pending_timeouts (onActivated tabId url (Some d) s)))).
Proof.
  split.
  - intros Hp. apply popup_detects in Hp. apply background_detects.
    apply present_or. left. unfold named_marker. apply present_or. by left.
  - intros tabId url v s Hurl Hvideo Hnone.
    assert (Hbg : Background.checkMeetingStatus d = true).
    { apply background_detects, present_or. left.
      unfold named_marker. apply present_or. by right. }
    assert (Hpop : Popup.checkMeetingStatus d = false).
    { apply not_true_is_false. intros H. by apply Hnone, popup_detects. }
    split; [| split].
    + unfold popup_label, Popup.onDOMContentLoaded. cbn [List.find].
      assert (Hact : Popup.is_active_meet (Popup.Tab tabId url true (Some d)) = true).
      { unfold Popup.is_active_meet. cbn. unfold is_meet_url in Hurl.
        destruct url as [u |]; [| discriminate]. by rewrite andb_true_r. }
      rewrite Hact. cbn. by rewrite Hpop.
    + unfold onActivated, on_meeting_status. rewrite Hurl. cbn [in_meeting].
      rewrite Hbg. by destruct (start_badge_and_pending tabId (setBadgeText "ON" s)) as [-> _].
    + unfold onActivated, on_meeting_status. rewrite Hurl. cbn [in_meeting].
      rewrite Hbg. apply start_badge_and_pending.
Qed.

Lemma popup_and_background_status_witness :
  popup_label [Popup.Tab 7 meet_url true (Some video_only_doc)] (Popup.View ∅ "" "")
  = "Inactive - Not in meeting" /\
  badge (onActivated 7 meet_url (Some video_only_doc) init) = "ON".
Proof.
  destruct (popup_and_background_status video_only_doc) as [_ H].
  destruct (H 7%Z meet_url (Popup.View ∅ "" "") init) as (Hl & Hb & _).
  - reflexivity.
  - apply found_video. vm_compute. reflexivity.
  - rewrite <- popup_detects. vm_compute. discriminate.
  - by split.
Defined.

(** ** The message listener and the uploader *)

Ltac peel_char s :=
  destruct s as [| [[] [] [] [] [] [] [] []] s]; try reflexivity.

Lemma other_type_ignored message w s :
  get_prop "type" message = Normal (Some (JStr s)) ->
  s <> "IMAGE_CAPTURED" ->
  onMessage message w = (Normal None, w).
Proof.
  intros Hget Hne. unfold onMessage. rewrite Hget. clear Hget. revert Hne.
  do 14 peel_char s.
  destruct s; [intros Hne; by destruct Hne | reflexivity].
Qed.

(** X5: a message that is not a captured image is ignored: the listener
    sends nothing, stores nothing, logs nothing (the world is unchanged)
    and gives no answer; for the message null, reading its type throws
    and the exception leaves the listener. *)
Theorem listener_ignores_other_messages (message : json) (w : world) :
  ~ captured message ->
  snd (onMessage message w) = w /\
  (message <> JNull -> fst (onMessage message w) = Normal None) /\
  (message = JNull -> exists e, fst (onMessage message w) = Throw e).
Proof.
  intros Hnot. unfold captured in Hnot.
  destruct (get_prop "type" message) as [[[ | b | n | s | items | fields] |] | e]
    eqn:Hget.
  all: try (destruct message; try discriminate Hget;
            unfold onMessage; rewrite Hget;
            repeat split; try reflexivity; try discriminate;
            try (intros Hnn; by destruct Hnn); by eexists).
  assert (Hne : s <> "IMAGE_CAPTURED") by (intros ->; by apply Hnot).
  rewrite (other_type_ignored message w s Hget Hne).
  repeat split. intros ->. discriminate Hget.
Qed.

Lemma listener_ignores_other_messages_witness :
  onMessage ping_message fresh_world = (Normal None, fresh_world).
Proof.
  destruct (listener_ignores_other_messages ping_message fresh_world)
    as (Hw & Hr & _).
  - discriminate.
  - specialize (Hr ltac:(discriminate)).
    destruct (onMessage ping_message fresh_world) as [r w']. simpl in *.
    by subst.
Defined.

(** X6: whatever the endpoint does, [sendImageToBackend] sends exactly one
    request and leaves the storage alone. Its promise resolves, with the
    parsed body, exactly when the answer has a status in 200..299 and a
    JSON body; a network failure rejects it with the failure's own
    message; and every rejection is logged as an error. *)
Theorem uploader_settles_with_endpoint
        (imageData meetingId userId participantId userName deviceId : option json)
        (w : world) :
  let req := upload_request imageData meetingId userId participantId
                            userName deviceId w in
  let r := sendImageToBackend imageData meetingId userId participantId
                              userName deviceId w in
  sent (snd r) = (sent w ++ [req])%list /\
  storage (snd r) = storage w /\
  (forall result,
     fst r = Normal result <->
     exists status, server w req = Response status (Some result) /\
                    (200 <= status <= 299)%Z) /\
  (forall reason, server w req = NetworkError reason -> fst r = Throw reason) /\
  (forall e, fst r = Throw e ->
             logged LogError "Error sending image to backend:" (snd r)).
Proof.
  intros req r. subst req r. unfold sendImageToBackend.
  rewrite (upload_request_same_clock _ _ _ _ _ _ _ w) by (by split).
  set (req := upload_request _ _ _ _ _ _ w).
  change (server (record_request req _)) with (server w).
  unfold upload_attempt.
  destruct (server w req) as [reason | status payload].
  - cbn. repeat split; try discriminate.
    + intros (status & [=] & _).
    + by intros reason' [= <-].
    + intros e _. unfold logged. cbn. rewrite !in_app_iff. simpl. tauto.
  - destruct (response_ok status) eqn:Hok; [destruct payload as [result |] |]; cbn.
    + repeat split; try discriminate.
      * intros [= <-]. exists status. split; [reflexivity |].
        by apply response_ok_range.
      * by intros (status' & [= <- <-] & _).
    + repeat split; try discriminate.
      * intros (status' & [=] & _).
      * intros e _. unfold logged. cbn. rewrite !in_app_iff. simpl. tauto.
    + repeat split; try discriminate.
      * intros (status' & [= <- _] & Hrange).
        apply response_ok_range in Hrange. congruence.
      * intros e _. unfold logged. cbn. rewrite !in_app_iff. simpl. tauto.
Qed.

Lemma uploader_settles_with_endpoint_witness :
  fst (sendImageToBackend (Some (JStr "data:x")) (Some (JStr "abc")) None None
                          None (Some (JStr "id-1")) offline_world)
  = Throw "Failed to fetch".
Proof.
  destruct (uploader_settles_with_endpoint
              (Some (JStr "data:x")) (Some (JStr "abc")) None None None
              (Some (JStr "id-1")) offline_world) as (_ & _ & _ & Hnet & _).
  by apply Hnet.
Defined.

(** X7: the request body always has the fields timestamp and deviceId,
    and has each of imageData, meetingId, userId, participantId and
    userName exactly when the message defines it (a field that is null is
    defined and is sent as null; one that is missing is left out). *)
Theorem body_leaves_out_missing_fields (message : json) (w : world) (key : string) :
  In key (map fst (body_fields (upload_for message w))) <->
  key = "timestamp" \/ key = "deviceId" \/
  (In key ["imageData"; "meetingId"; "userId"; "participantId"; "userName"] /\
   is_Some (message_field key message)).
Proof.
  unfold upload_for, upload_request, body_fields. cbn [body].
  destruct (message_field "imageData" message) as [v1 |] eqn:H1;
    destruct (message_field "meetingId" message) as [v2 |] eqn:H2;
    destruct (message_field "userId" message) as [v3 |] eqn:H3;
    destruct (message_field "participantId" message) as [v4 |] eqn:H4;
    destruct (message_field "userName" message) as [v5 |] eqn:H5;
    cbn [defined_fields map fst In].
  all: split;
    [ intros Hin;
      repeat (destruct Hin as [<- | Hin];
              [ first [ by left | by (right; left)
                      | right; right; split;
                        [ cbn; tauto | rewrite ?H1, ?H2, ?H3, ?H4, ?H5; by eexists ] ] |]);
      destruct Hin
    | intros [-> | [-> | [Hin [v Hv]]]];
      [ tauto | tauto |
        cbn in Hin;
        repeat (destruct Hin as [<- | Hin]; [ first [ tauto | congruence ] |]);
        destruct Hin ] ].
Qed.

(** ** The frame capturer *)



Lemma find_filter {A} (f g : A -> bool) l :
  List.find f (List.filter g l) = List.find (fun x => g x && f x) l.
Proof.
  induction l as [| x l IH]; [reflexivity |]. simpl.
  destruct (g x); simpl; [by rewrite IH | exact IH].
Qed.

(** X9: the video the capturer chooses is the first element of the
    document, in document order, that is a video element more than 100
    wide and more than 100 high, with a stream and ready state 4; it
    chooses none exactly when the document has no such element. *)
Theorem mainVideo_first_suitable (d : document) :
  (forall video,
     mainVideo d = Some video <->
     first_passing (fun e => matches (ByTag "video") e && suitable e)
                   (elements_of d) video) /\
  (mainVideo d = None <->
   forall e, In e (elements_of d) -> is_video e -> suitable e = false) /\
  (forall e, suitable e = true <->
     (100 < offsetWidth (props_of e))%Z /\ (100 < offsetHeight (props_of e))%Z /\
     srcObject (props_of e) <> None /\ readyState (props_of e) = 4%Z).
Proof.
  unfold mainVideo, querySelectorAll. rewrite find_filter.
  split; [| split].
  - intros video. apply find_first_passing.
  - rewrite find_none_passing, Forall_forall. split.
    + intros H e Hin Hvideo. apply matches_video in Hvideo.
      apply list_elem_of_In in Hin. specialize (H e Hin).
      by rewrite Hvideo in H.
    + intros H e Hin. apply list_elem_of_In in Hin.
      destruct (matches (ByTag "video") e) eqn:Hm; [| reflexivity].
      apply H; [exact Hin | by apply matches_video].
  - intros e. unfold suitable.
    rewrite !andb_true_iff, !Z.ltb_lt, Z.eqb_eq.
    destruct (srcObject (props_of e)); simpl; intuition congruence.
Qed.


Lemma mainVideo_first_suitable_witness :
  first_passing (fun e => matches (ByTag "video") e && suitable e)
                (elements_of call_doc) call_video.
Proof.
  destruct (mainVideo_first_suitable call_doc) as [Hfirst _].
  by apply Hfirst.
Defined.

(** X10: a run waits through the attempts that find no suitable video:
    when the first suitable one appears at the attempt with counter [n],
    no later than 10, the run schedules exactly [n - retryCount] retries
    and then captures from that page; what the page looks like at other
    attempts does not matter. *)
Theorem capture_waits_for_video
        (pages : Z -> page) (retryCount n : Z) (video : node) :
  (retryCount <= n <= 10)%Z ->
  (forall k, (retryCount <= k < n)%Z -> mainVideo (doc (pages k)) = None) ->
  mainVideo (doc (pages n)) = Some video ->
  captureCameraImage pages retryCount
  = (retry_prefix retryCount (Z.to_nat (n - retryCount)) ++
     capture_frame (pages n) video)%list.
Proof.
  intros Hrange Hnone Hfound.
  remember (Z.to_nat (n - retryCount)) as c eqn:Hc.
  revert retryCount Hrange Hnone Hc.
  induction c as [| c IH]; intros rc Hrange Hnone Hc.
  - assert (rc = n) as -> by lia. cbn [retry_prefix app].
    by apply captureCameraImage_found.
  - rewrite captureCameraImage_retry; [| apply Hnone; lia | lia].
    cbn [retry_prefix app]. do 2 f_equal.
    apply IH; [lia | intros k Hk; apply Hnone; lia | lia].
Qed.

Lemma capture_waits_for_video_witness :
  length (timeouts_of (captureCameraImage slow_pages 0)) = 3%nat /\
  messages_of (captureCameraImage slow_pages 0) = [call_message].
Proof.
  rewrite (capture_waits_for_video slow_pages 0 3 call_video).
  - split; reflexivity.
  - lia.
  - intros k Hk. assert (k = 0 \/ k = 1 \/ k = 2)%Z as [-> | [-> | ->]] by lia;
      reflexivity.
  - reflexivity.
Defined.

(** ** Capture scheduling: stopping *)

Lemma stop_settled s :
  handles_positive s -> settled s ->
  stopCameraCapture (setBadgeText "" s)
  = State (now s) (next_handle s) [] [] None "" (capture_ticks s).
Proof.
  intros [_ Hpos] [Hp Ha].
  destruct s as [t nx p a held b tk]. simpl in *. subst p.
  unfold stopCameraCapture. cbn.
  destruct held as [h |].
  - specialize (Hpos h eq_refl).
    destruct (Z.eqb_spec h 0) as [-> | Hnz]; [lia |]. cbn.
    unfold clearInterval. cbn. rewrite filter_none; [reflexivity |].
    intros x Hx. destruct (Ha x Hx) as [[= ->] _].
    unfold keep_other. by rewrite Z.eqb_refl.
  - destruct a as [| i a]; [reflexivity |].
    destruct (Ha i (or_introl eq_refl)) as [[=] _].
Qed.

(** X11: in a settled state, whatever led to it, removing a tab really
    stops capture: no interval is left, and however much time passes
    afterwards, no capture tick is added and no interval comes up. *)
Theorem removal_stops_settled_capture
        (events : list event) (removed : Z) (n : nat) :
  let s := run events init in
  settled s ->
  let s' := elapse n (onRemoved removed s) in
  active_intervals s' = [] /\ pending_timeouts s' = [] /\
  captureInterval s' = None /\ capture_ticks s' = capture_ticks s.
Proof.
  intros s Hs s'. subst s'.
  assert (Hpos : handles_positive s) by apply run_positive, init_positive.
  unfold onRemoved. rewrite (stop_settled s Hpos Hs).
  rewrite elapse_quiet; [by repeat split | intros x [] | intros x []].
Qed.

Lemma removal_stops_settled_capture_witness :
  capture_ticks
    (elapse 4000
       (onRemoved 3
          (run [TabUpdated 7 (Some "complete") meet_url (Some muted_doc);
                Elapse 5000] init)))
  = [(3000, 2, 7); (5000, 2, 7)]%Z.
Proof.
  apply (removal_stops_settled_capture
           [TabUpdated 7 (Some "complete") meet_url (Some muted_doc);
            Elapse 5000] 3 4000).
  split; [reflexivity |].
  vm_compute. intros i [<- | []]. split; [reflexivity | discriminate].
Defined.

(** ** The meeting identifier *)

Lemma append_assoc (a b c : string) : (a ++ b) ++ c = a ++ (b ++ c).
Proof.
  induction a as [| x a IH]; [reflexivity |].
  change (String x ((a ++ b) ++ c) = String x (a ++ (b ++ c))). by f_equal.
Qed.

Lemma has_slash_app a b : has_slash (a ++ b) = has_slash a || has_slash b.
Proof.
  induction a as [| x a IH]; [reflexivity |].
  change (Ascii.eqb x "/"%char || has_slash (a ++ b)
          = Ascii.eqb x "/"%char || has_slash a || has_slash b).
  by rewrite IH, orb_assoc.
Qed.

Lemma append_nil_r (a : string) : a ++ "" = a.
Proof.
  induction a as [| x a IH]; [reflexivity |].
  change (String x (a ++ "") = String x a). by f_equal.
Qed.

Lemma last_segment_from_no_slash s : forall cur,
  has_slash cur = false -> has_slash (last_segment_from cur s) = false.
Proof.
  induction s as [| c s IH]; intros cur Hcur; [exact Hcur |].
  cbn [last_segment_from].
  destruct (Ascii.eqb_spec c "/"%char) as [-> | Hne].
  - by apply IH.
  - apply IH. rewrite has_slash_app, Hcur. cbn [has_slash orb].
    destruct (Ascii.eqb_spec c "/"%char); [contradiction | reflexivity].
Qed.

Lemma last_segment_from_whole s : forall cur,
  has_slash s = false -> last_segment_from cur s = cur ++ s.
Proof.
  induction s as [| c s IH]; intros cur Hs.
  - cbn [last_segment_from]. by rewrite append_nil_r.
  - cbn [last_segment_from has_slash] in *.
    apply orb_false_iff in Hs as [Hc Hs]. rewrite Hc.
    rewrite (IH _ Hs), append_assoc. reflexivity.
Qed.

Lemma last_segment_from_after_slash s : forall cur,
  has_slash s = true ->
  exists before, cur ++ s = before ++ "/" ++ last_segment_from cur s.
Proof.
  induction s as [| c s IH]; intros cur Hs; [discriminate |].
  cbn [last_segment_from has_slash] in *.
  destruct (Ascii.eqb_spec c "/"%char) as [-> | Hne].
  - destruct (has_slash s) eqn:Hrest.
    + destruct (IH "" eq_refl) as [before Hb].
      change ("" ++ s) with s in Hb.
      exists (cur ++ "/" ++ before).
      rewrite !append_assoc. do 2 f_equal. exact Hb.
    + exists cur. by rewrite (last_segment_from_whole s "" Hrest).
  - cbn [orb] in Hs. destruct (IH (cur ++ String c "") Hs) as [before Hb].
    exists before. rewrite <- Hb, append_assoc. reflexivity.
Qed.

(** X12: the meeting identifier taken from a path holds no slash; it is
    the whole path when the path has no slash, and otherwise what follows
    the path's last slash (empty when the path ends in one). *)
Theorem meetingId_follows_last_slash (path : string) :
  has_slash (last_segment path) = false /\
  (has_slash path = false -> last_segment path = path) /\
  (has_slash path = true ->
   exists before, path = before ++ "/" ++ last_segment path) /\
  last_segment (path ++ "/") = "".
Proof.
  unfold last_segment. split; [| split; [| split]].
  - by apply last_segment_from_no_slash.
  - intros H. by rewrite (last_segment_from_whole path "" H).
  - intros H. apply (last_segment_from_after_slash path "" H).
  - generalize "" at 1. induction path as [| c path IH]; intros cur.
    + reflexivity.
    + change (String c path ++ "/") with (String c (path ++ "/")).
      cbn [last_segment_from]. destruct (Ascii.eqb c "/"%char); apply IH.
Qed.

Lemma meetingId_follows_last_slash_witness :
  exists before, "/lookup/abc-defg-hij" = before ++ "/" ++ "abc-defg-hij".
Proof.
  destruct (meetingId_follows_last_slash "/lookup/abc-defg-hij")
    as (_ & _ & H & _).
  apply H. reflexivity.
Defined.

(** ** The dashboard: answers that are not arrays *)

(** X13: an answer that parses but is not an array never shows a table.
    It shows the no-data message when it is the empty string or an object
    whose length field is the number 0, and the error message in every
    other case (null, a number, a boolean, a non-empty string, any other
    object). *)
Theorem dashboard_non_array_answer (data : json) (v : Dashboard.view) :
  (forall items, data <> JArr items) ->
  (shown (Dashboard.FetchResponse (Some data)) v = Dashboard.no_data_html <->
   data = JStr "" \/
   exists fields, data = JObj fields /\ assoc "length" fields = Some (JNum "0")) /\
  (shown (Dashboard.FetchResponse (Some data)) v <> Dashboard.no_data_html ->
   shown (Dashboard.FetchResponse (Some data)) v = Dashboard.error_html).
Proof.
  intros Hnot. unfold shown, Dashboard.on_submit, Dashboard.try_block.
  destruct data as [| b | printed | s | items | fields];
    cbn [Dashboard.length_is_zero Dashboard.table_html].
  - split; [split; [discriminate | intros [[=] | (f & [=] & _)]] | reflexivity].
  - split; [split; [discriminate | intros [[=] | (f & [=] & _)]] | reflexivity].
  - split; [split; [discriminate | intros [[=] | (f & [=] & _)]] | reflexivity].
  - destruct (String.eqb_spec s "") as [-> | Hne].
    + split; [split; [by left | reflexivity] | intros H; by destruct H].
    + split; [split; [discriminate |] | reflexivity].
      intros [[= ->] | (f & [=] & _)]. by destruct Hne.
  - by destruct (Hnot items).
  - destruct (assoc "length" fields) as [[| b | printed | s | items | f'] |] eqn:Hlen.
    all: try (split; [split; [discriminate | intros [[=] | (f & [= <-] & Hf)];
                              congruence] | reflexivity]).
    destruct (String.eqb_spec printed "0") as [-> | Hne].
    + split; [split; [intros _; right; by exists fields | reflexivity]
             | intros H; by destruct H].
    + split; [split; [discriminate |] | reflexivity].
      intros [[=] | (f & [= <-] & Hf)]. congruence.
Qed.

Lemma dashboard_non_array_answer_witness :
  shown (Dashboard.FetchResponse (Some (JObj [("error", JStr "not found")])))
        blank_view
  = Dashboard.error_html.
Proof.
  destruct (dashboard_non_array_answer
              (JObj [("error", JStr "not found")]) blank_view) as [_ H].
  - discriminate.
  - apply H. discriminate.
Defined.

(** ** The device identifier: what a call leaves alone *)

(** X14: a call of [getDeviceId] sends nothing and logs nothing, changes
    no storage key other than deviceId, and draws at most one random
    identifier; when a non-empty identifier is stored it changes nothing
    at all. *)
Theorem getDeviceId_touches_only_its_key (w : world) :
  let w1 := snd (read_device_id w) in
  (forall key, key <> "deviceId" -> storage w1 !! key = storage w !! key) /\
  sent w1 = sent w /\ console w1 = console w /\
  (drawn w1 = drawn w \/ drawn w1 = S (drawn w)) /\
  (truthy_string (storage w !! "deviceId") = true -> w1 = w).
Proof.
  unfold read_device_id, getDeviceId, randomUUID. cbn zeta.
  destruct (storage w !! "deviceId") as [deviceId |] eqn:Hs.
  - destruct (truthy_string (Some deviceId)) eqn:Ht; cbn.
    + repeat split; auto.
    + repeat split; auto; try discriminate.
      intros key Hne. by rewrite lookup_insert_ne.
  - cbn. repeat split; auto; try discriminate.
    intros key Hne. by rewrite lookup_insert_ne.
Qed.

Lemma getDeviceId_touches_only_its_key_witness :
  snd (read_device_id (snd (read_device_id fresh_world)))
  = snd (read_device_id fresh_world).
Proof.
  destruct (getDeviceId_touches_only_its_key (snd (read_device_id fresh_world)))
    as (_ & _ & _ & _ & H).
  apply H. reflexivity.
Defined.

(** ** Capture across tabs *)

(** X15: the capture handle is shared by all tabs. In a settled state,
    whatever led to it, a Meet tab that finishes loading, or is switched
    to, without a meeting in it stops the capture that is running,
    whichever tab it is running for; the badge is blanked. *)
Theorem other_tab_without_meeting_stops_capture
        (events : list event) (tabId : Z) (url : option string)
        (page : option document) :
  let s := run events init in
  settled s -> is_meet_url url = true -> in_meeting page = false ->
  onUpdated tabId (Some "complete") url page s
  = State (now s) (next_handle s) [] [] None "" (capture_ticks s) /\
  onActivated tabId url page s = onUpdated tabId (Some "complete") url page s.
Proof.
  intros s Hs Hurl Hpage.
  assert (Hpos : handles_positive s) by apply run_positive, init_positive.
  unfold onUpdated, onActivated, on_meeting_status.
  rewrite Hurl, Hpage. cbn [String.eqb andb].
  replace (String.eqb "complete" "complete") with true by reflexivity.
  cbn [andb]. by rewrite (stop_settled s Hpos Hs).
Qed.

Lemma other_tab_without_meeting_stops_capture_witness :
  map for_tab (active_intervals (run capturing_on_7 init)) = [7%Z] /\
  active_intervals
    (onUpdated 9 (Some "complete") meet_url (Some lobby_doc)
               (run capturing_on_7 init)) = [].
Proof.
  split; [reflexivity |].
  assert (Hs : settled (run capturing_on_7 init)).
  { split; [reflexivity |].
    vm_compute. intros i [<- | []]. split; [reflexivity | discriminate]. }
  pose proof (other_tab_without_meeting_stops_capture
                capturing_on_7 9 meet_url (Some lobby_doc) Hs eq_refl eq_refl)
    as [H _].
  exact (f_equal active_intervals H).
Defined.

(** ** Detection at any depth *)

Lemma elements_of_child t a p kids k e :
  In k kids -> In e (elements_of k) -> In e (elements_of (Elem t a p kids)).
Proof.
  intros Hk He. cbn [elements_of]. right.
  induction kids as [| x kids IH]; [destruct Hk |].
  apply in_or_app. destruct Hk as [-> | Hk]; [by left | right; by apply IH].
Qed.

Lemma present_in_child P t a p kids k :
  In k kids -> present P k -> present P (Elem t a p kids).
Proof.
  intros Hk (e & He & HP). exists e. split; [| exact HP].
  by eapply elements_of_child.
Qed.

(** X16: both detectors look at the whole tree: a document detects a
    meeting whenever one of its child subtrees, taken as a document,
    does; and the document's own root element counts as well. *)
Theorem detection_sees_any_depth
        (t : string) (a : gmap string string) (p : props)
        (kids : list node) (k : node) :
  In k kids ->
  (Background.checkMeetingStatus k = true ->
   Background.checkMeetingStatus (Elem t a p kids) = true) /\
  (Popup.checkMeetingStatus k = true ->
   Popup.checkMeetingStatus (Elem t a p kids) = true) /\
  (is_Some (a !! "data-is-muted") ->
   Popup.checkMeetingStatus (Elem t a p kids) = true /\
   Background.checkMeetingStatus (Elem t a p kids) = true).
Proof.
  intros Hk. split; [| split].
  - intros H. apply background_detects. apply background_detects in H.
    by eapply present_in_child.
  - intros H. apply popup_detects. apply popup_detects in H.
    by eapply present_in_child.
  - intros Hm.
    assert (Hp : present attribute_marker (Elem t a p kids)).
    { exists (Elem t a p kids). split; [by left | by left]. }
    split; [by apply popup_detects |].
    apply background_detects, present_or. left.
    unfold named_marker. apply present_or. by left.
Qed.

Lemma detection_sees_any_depth_witness :
  Popup.checkMeetingStatus
    (Elem "html" ∅ no_props [Elem "head" ∅ no_props []; muted_doc]) = true.
Proof.
  destruct (detection_sees_any_depth "html" ∅ no_props
              [Elem "head" ∅ no_props []; muted_doc] muted_doc)
    as (_ & H & _).
  - right. by left.
  - apply H. reflexivity.
Defined.

(** ** One identifier for all uploads *)

Lemma read_device_id_by_storage w w' :
  storage w' = storage w ->
  truthy_string (storage w !! "deviceId") = true ->
  fst (read_device_id w') = fst (read_device_id w).
Proof.
  intros Heq Ht. unfold read_device_id, getDeviceId. rewrite Heq.
  destruct (storage w !! "deviceId") as [deviceId |]; [| discriminate].
  by rewrite Ht.
Qed.

Lemma onMessage_storage message w :
  captured message ->
  storage (snd (onMessage message w)) = storage (snd (read_device_id w)).
Proof.
  intros Hcap. unfold onMessage. rewrite Hcap, getDeviceId_callback.
  set (w0 := console_log LogInfo _ w).
  assert (Hw0 : storage (snd (read_device_id w0)) = storage (snd (read_device_id w))).
  { unfold read_device_id, getDeviceId, randomUUID. subst w0.
    cbn [storage console_log entropy drawn].
    destruct (storage w !! "deviceId") as [deviceId |]; [| reflexivity].
    by destruct (truthy_string (Some deviceId)). }
  rewrite <- Hw0. clearbody w0.
  destruct (read_device_id w0) as [deviceId w1]. cbn [fst snd].
  unfold sendImageToBackend, upload_attempt.
  destruct (server _ _) as [reason | status [result |]];
    [| destruct (response_ok status) | destruct (response_ok status)];
    reflexivity.
Qed.

Lemma deviceId_in_body a b c d e v w :
  assoc "deviceId" (body_fields (upload_request a b c d e (Some v) w)) = Some v.
Proof. by destruct a, b, c, d, e. Qed.

Lemma onMessage_keeps_device_id message w :
  captured message ->
  fst (read_device_id (snd (onMessage message w))) = fst (read_device_id w).
Proof.
  intros Hcap. destruct (read_device_id_stored w) as [Hs Ht].
  pose proof (onMessage_storage message w Hcap) as Hst.
  rewrite (read_device_id_by_storage (snd (read_device_id w))
             (snd (onMessage message w)) Hst).
  - unfold read_device_id at 1. by rewrite (getDeviceId_stored _ _ _ Hs Ht).
  - by rewrite Hs.
Qed.

Lemma handle_all_sent messages : forall w,
  Forall captured messages ->
  exists requests,
    sent (handle_all messages w) = (sent w ++ requests)%list /\
    length requests = length messages /\
    Forall (fun r => assoc "deviceId" (body_fields r)
                     = Some (JStr (fst (read_device_id w)))) requests.
Proof.
  induction messages as [| m messages IH]; intros w Hall.
  - exists []. by rewrite app_nil_r.
  - apply Forall_cons_1 in Hall as [Hm Hall].
    destruct (onMessage_captured m w Hm) as [Hsent _].
    destruct (IH (snd (onMessage m w)) Hall) as (requests & Hs & Hlen & Hids).
    exists (upload_for m w :: requests).
    change (handle_all (m :: messages) w)
      with (handle_all messages (snd (onMessage m w))).
    rewrite Hs, Hsent, <- app_assoc.
    split; [reflexivity |]. split; [cbn; by rewrite Hlen |].
    constructor.
    + unfold upload_for. apply deviceId_in_body.
    + by rewrite (onMessage_keeps_device_id m w Hm) in Hids.
Qed.

(** X17: when captured-image messages are handled one after the other
    (each upload settled before the next message arrives, nobody else
    writing to the storage), the listener sends one request per message,
    and every one of these requests carries the same deviceId: the
    identifier that was stored, or the one made for the first message. *)
Theorem uploads_share_device_id (messages : list json) (w : world) :
  Forall captured messages ->
  let w' := handle_all messages w in
  sent w' = (sent w ++ sent_since w w')%list /\
  length (sent_since w w') = length messages /\
  Forall (fun r => assoc "deviceId" (body_fields r)
                   = Some (JStr (fst (read_device_id w))))
         (sent_since w w') /\
  (messages <> [] -> storage w' !! "deviceId" = Some (fst (read_device_id w))).
Proof.
  intros Hall w'. subst w'.
  destruct (handle_all_sent messages w Hall) as (requests & Hs & Hlen & Hids).
  assert (Hsince : sent_since w (handle_all messages w) = requests).
  { unfold sent_since. rewrite Hs. by rewrite drop_app_length. }
  rewrite Hsince. split; [exact Hs |]. split; [exact Hlen |].
  split; [exact Hids |].
  clear requests Hs Hlen Hids Hsince. revert w Hall.
  induction messages as [| m messages IH]; intros w Hall Hne; [done |].
  apply Forall_cons_1 in Hall as [Hm Hall].
  change (handle_all (m :: messages) w)
    with (handle_all messages (snd (onMessage m w))).
  destruct messages as [| m' messages].
  - change (handle_all [] ?x) with x. rewrite (onMessage_storage m w Hm).
    apply read_device_id_stored.
  - rewrite <- (onMessage_keeps_device_id m w Hm).
    by apply (IH (snd (onMessage m w)) Hall).
Qed.

Lemma uploads_share_device_id_witness :
  map (fun r => assoc "deviceId" (body_fields r))
      (sent (handle_all [call_message; later_message] fresh_world))
  = [ Some (JStr "00000000-0000-4000-8123-456789abcdef");
      Some (JStr "00000000-0000-4000-8123-456789abcdef") ] /\
  Forall (fun r => assoc "deviceId" (body_fields r)
                   = Some (JStr (fst (read_device_id fresh_world))))
         (sent_since fresh_world
                     (handle_all [call_message; later_message] fresh_world)).
Proof.
  split; [reflexivity |].
  apply (uploads_share_device_id [call_message; later_message] fresh_world).
  repeat constructor.
Defined.

(** ** The dashboard: what a query leaves behind *)

(** X18: what the dashboard shows after a query depends on the answer
    alone: earlier results never remain; the form's default submission is
    always prevented and the loading overlay always ends hidden. *)
Theorem dashboard_replaces_earlier_results
        (answer : Dashboard.fetch_result) (v v' : Dashboard.view) :
  snd (Dashboard.on_submit answer v) = snd (Dashboard.on_submit answer v') /\
  Dashboard.default_prevented (snd (Dashboard.on_submit answer v)) = true /\
  Dashboard.overlay_display (snd (Dashboard.on_submit answer v)) = "none" /\
  (shown answer v = Dashboard.no_data_html \/
   shown answer v = Dashboard.error_html \/
   String.prefix "<table" (shown answer v) = true).
Proof.
  unfold shown, Dashboard.on_submit, Dashboard.try_block.
  destruct answer as [reason | [data |]]; cbn; try (repeat split; tauto).
  destruct (Dashboard.length_is_zero data) as [[] | e]; cbn;
    try (repeat split; tauto).
  destruct (Dashboard.table_html data) as [table | e] eqn:Ht; cbn;
    try (repeat split; tauto).
  repeat split. right. right.
  destruct data; try discriminate Ht. cbn in Ht.
  destruct (Dashboard.rows_html items); [| discriminate].
  by injection Ht as <-.
Qed.
